(** * The update coordinator of the Yahoo finance component

    A shallow embedding of [custom_components/yahoofinance/__init__.py]:
    [normalize_input], [YahooSymbolUpdateCoordinator.parse_symbol_data],
    [get_symbols], [_add_refresh_later], [add_symbol], [get_json],
    [_async_update] and [_async_update_with_retry], followed by the
    properties of the symbol registry, of the payload validation and of
    the retry timer.

    Python values are embedded as follows.
    - The document returned by [response.json()] is a [jvalue]; Python's
      [None] is [JNull], a [dict] with string keys is a [gmap string jvalue].
    - A number is carried as the rational it denotes.  The code never
      computes with quote values, it only copies them.
    - An exception is a constructor of [exn]; a call that may raise returns
      an [outcome]. *)

From Stdlib Require Import QArith.
From stdpp Require Import gmap strings list.

Open Scope string_scope.
Open Scope list_scope.
Open Scope nat_scope.

(** ** Python values *)

#[warnings="-register-all"]
Inductive jvalue : Type :=
| JNull
| JBool (b : bool)
| JNum (q : Q)
| JStr (s : string)
| JList (l : list jvalue)
| JObj (o : gmap string jvalue).

(** The exceptions the coordinator can meet.  [UpdateFailed] carries its
    argument, which is a text or, for an embedded error, whatever the
    payload holds under ["error"]. *)
Inductive exn : Type :=
| UpdateFailed (reason : jvalue)
| KeyError (key : string)
| TypeError
| AttributeError
| TimeoutError
| ClientError (detail : string).

Inductive outcome (A : Type) : Type :=
| Return (a : A)
| Raise (e : exn).
Arguments Return {A} a.
Arguments Raise {A} e.

#[global] Instance outcome_ret : MRet outcome := λ A a, Return a.
#[global] Instance outcome_bind : MBind outcome := λ A B k r,
  match r with
  | Return a => k a
  | Raise e => Raise e
  end.

Definition raised {A} (r : outcome A) : Prop :=
  match r with
  | Return _ => False
  | Raise _ => True
  end.

(** [key in container]: key membership for a dict, element membership for
    a list, substring test for a str; every other JSON value is not
    iterable. *)
Definition is_str (key : string) (j : jvalue) : bool :=
  match j with
  | JStr s => bool_decide (s = key)
  | _ => false
  end.

Definition py_in (key : string) (container : jvalue) : outcome bool :=
  match container with
  | JObj o => Return (bool_decide (is_Some (o !! key)))
  | JList l => Return (existsb (is_str key) l)
  | JStr s => Return (bool_decide (is_Some (String.index 0 key s)))
  | JNull | JBool _ | JNum _ => Raise TypeError
  end.

(** [container[key]] for a str key: only a dict accepts it. *)
Definition py_getitem (container : jvalue) (key : string) : outcome jvalue :=
  match container with
  | JObj o =>
      match o !! key with
      | Some v => Return v
      | None => Raise (KeyError key)
      end
  | _ => Raise TypeError
  end.

(** [container.get(key, default)]: only a dict has the method. *)
Definition py_get (container : jvalue) (key : string) (dflt : jvalue)
  : outcome jvalue :=
  match container with
  | JObj o => Return (default dflt (o !! key))
  | _ => Raise AttributeError
  end.

(** [for x in container]: the elements of a list, the keys of a dict, the
    characters of a str. *)
Fixpoint characters (s : string) : list jvalue :=
  match s with
  | EmptyString => []
  | String a rest => JStr (String a EmptyString) :: characters rest
  end.

Definition py_iter (container : jvalue) : outcome (list jvalue) :=
  match container with
  | JList l => Return l
  | JObj o => Return (JStr <$> (map_to_list o).*1)
  | JStr s => Return (characters s)
  | JNull | JBool _ | JNum _ => Raise TypeError
  end.

(** Keys of the dict that [_async_update] builds.  A dict accepts every
    hashable value as a key: [None], a str, or a number, where [True] and
    [False] are the numbers 1 and 0 and numbers are compared by value (a
    rational is kept in lowest terms).  A list or a dict is unhashable. *)
Inductive pykey : Type :=
| KNone
| KNum (num : Z) (den : positive)
| KStr (s : string).

#[global] Instance pykey_eq_dec : EqDecision pykey.
Proof. solve_decision. Defined.

#[global] Instance pykey_countable : Countable pykey.
Proof.
  refine (inj_countable'
    (λ k, match k with
          | KNone => inl ()
          | KNum n d => inr (inl (n, d))
          | KStr s => inr (inr s)
          end)
    (λ x, match x with
          | inl _ => KNone
          | inr (inl (n, d)) => KNum n d
          | inr (inr s) => KStr s
          end) _).
  intros []; reflexivity.
Defined.

Definition num_key (q : Q) : pykey := KNum (Qnum (Qred q)) (Qden (Qred q)).

Definition py_hash (j : jvalue) : outcome pykey :=
  match j with
  | JNull => Return KNone
  | JBool b => Return (num_key (if b then 1 else 0))
  | JNum q => Return (num_key q)
  | JStr s => Return (KStr s)
  | JList _ | JObj _ => Raise TypeError
  end.

(** A QuoteRecord is the dict built by [parse_symbol_data]; a Snapshot is
    the dict returned by [_async_update]. *)
Abbreviation quote_record := (gmap string jvalue).
Abbreviation snapshot := (gmap pykey (gmap string jvalue)).

(** ** The coordinator and its event loop

    [timer] is a callback registered with [event.async_call_later]; the
    coordinator only ever registers [async_request_refresh_later].  The
    remover returned by [async_call_later] is identified by the handle of
    the timer it cancels. *)
Record timer : Type := Timer {
  handle : nat;
  delay : Z;
}.

#[global] Instance timer_eq_dec : EqDecision timer.
Proof. solve_decision. Defined.

(** The fields of [YahooSymbolUpdateCoordinator] that the code reads or
    writes, together with the part of [hass] it acts on: the timers armed
    with [event.async_call_later] and not yet fired or cancelled, the next
    free handle, the number of calls of [async_request_refresh], and the
    URLs fetched through [websession.get]. *)
Record coordinator : Type := Coordinator {
  _symbols : list string;
  data : option snapshot;
  last_update_success : bool;
  _refresh_remover : option nat;
  call_later : list timer;
  next_handle : nat;
  refresh_requests : nat;
  websession_gets : list string;
}.

Definition DELAY_ASYNC_REQUEST_REFRESH : Z := 5.
Definition FAILURE_ASYNC_REQUEST_REFRESH : Z := 20.

Definition set_symbols (l : list string) (c : coordinator) : coordinator :=
  Coordinator l (data c) (last_update_success c) (_refresh_remover c)
    (call_later c) (next_handle c) (refresh_requests c) (websession_gets c).

Definition set_data (d : option snapshot) (ok : bool) (c : coordinator)
  : coordinator :=
  Coordinator (_symbols c) d ok (_refresh_remover c)
    (call_later c) (next_handle c) (refresh_requests c) (websession_gets c).

Definition set_refresh_remover (r : option nat) (c : coordinator)
  : coordinator :=
  Coordinator (_symbols c) (data c) (last_update_success c) r
    (call_later c) (next_handle c) (refresh_requests c) (websession_gets c).

Definition set_call_later (ts : list timer) (n : nat) (c : coordinator)
  : coordinator :=
  Coordinator (_symbols c) (data c) (last_update_success c)
    (_refresh_remover c) ts n (refresh_requests c) (websession_gets c).

Definition set_refresh_requests (n : nat) (c : coordinator) : coordinator :=
  Coordinator (_symbols c) (data c) (last_update_success c)
    (_refresh_remover c) (call_later c) (next_handle c) n (websession_gets c).

Definition set_websession_gets (l : list string) (c : coordinator)
  : coordinator :=
  Coordinator (_symbols c) (data c) (last_update_success c)
    (_refresh_remover c) (call_later c) (next_handle c) (refresh_requests c) l.

(** *** The scheduler capability

    Modelled from the spec: [event.async_call_later] belongs to the Home
    Assistant framework and is not part of this repository.  Section 6 of
    the specification gives its contract, [call_after(delay, callback)]
    returning a cancellation handle: the call arms a one-shot timer and
    the handle, when called, disarms that timer and no other.  Calling the
    handle of a timer that has fired or was cancelled does nothing. *)
Definition async_call_later (duration : Z) (c : coordinator)
  : nat * coordinator :=
  let h := next_handle c in
  (h, set_call_later (call_later c ++ [Timer h duration]) (S h) c).

Definition remove_timer (h : nat) (c : coordinator) : coordinator :=
  set_call_later (filter (λ t, handle t ≠ h) (call_later c)) (next_handle c) c.

(** Modelled from the spec: [DataUpdateCoordinator.async_request_refresh]
    is the framework's debounced entry point (section 6,
    [request_refresh()]); the model counts the requests. *)
Definition async_request_refresh (c : coordinator) : coordinator :=
  set_refresh_requests (S (refresh_requests c)) c.

(** *** Methods of [YahooSymbolUpdateCoordinator] *)

(** Modelled from the spec: the constructor of the framework's
    [DataUpdateCoordinator], called through [super().__init__], is not
    part of this repository; it leaves [data] absent and starts with
    [last_update_success] set.  The fields of the event loop start
    empty. *)
Definition __init__ (symbols : list string) : coordinator :=
  Coordinator symbols None true None [] 0 0 [].

Definition get_symbols (c : coordinator) : list string := _symbols c.

Definition async_request_refresh_later (c : coordinator) : coordinator :=
  async_request_refresh c.

Definition _add_refresh_later (duration : Z) (c : coordinator) : coordinator :=
  let c :=
    match _refresh_remover c with
    | Some h => set_refresh_remover None (remove_timer h c)
    | None => c
    end in
  let '(h, c) := async_call_later duration c in
  set_refresh_remover (Some h) c.

Definition add_symbol (symbol : string) (c : coordinator)
  : bool * coordinator :=
  if decide (symbol ∉ _symbols c) then
    let c := set_symbols (_symbols c ++ [symbol]) c in
    let c := _add_refresh_later DELAY_ASYNC_REQUEST_REFRESH c in
    (true, c)
  else (false, c).

(** A [for] loop whose body may raise: the first exception ends it. *)
Fixpoint for_each {A S} (body : A → S → outcome S) (l : list A) (s : S)
  : outcome S :=
  match l with
  | [] => Return s
  | x :: l => s ← body x s; for_each body l s
  end.

Definition is_None (j : jvalue) : bool :=
  match j with
  | JNull => true
  | _ => false
  end.

Section Const.

(** The module [const.py] is not among the sources.  Its tables and
    constants are parameters: [NUMERIC_DATA_KEYS] is a list of tuples whose
    first component is the field name, [STRING_DATA_KEYS] a list of field
    names, [DATA_REGULAR_MARKET_PRICE] a field name and [BASE] the prefix
    of the request URL. *)
Variable NUMERIC_DATA_KEYS : list (string * bool).
Variable STRING_DATA_KEYS : list string.
Variable DATA_REGULAR_MARKET_PRICE : string.
Variable BASE : string.

Definition parse_symbol_data (symbol_data : jvalue) : outcome quote_record :=
  let data : quote_record := ∅ in
  data ← for_each (λ (value : string * bool) (data : quote_record),
            let key := value.1 in
            v ← py_get symbol_data key (JNum 0);
            Return (<[key := v]> data))
         NUMERIC_DATA_KEYS data;
  for_each (λ (key : string) (data : quote_record),
      v ← py_get symbol_data key JNull;
      Return (<[key := v]> data))
    STRING_DATA_KEYS data.

(** [response] is what the web session answers to this request: the parsed
    document, or the exception raised by the transport or by the
    [async_timeout] guard. *)
Definition get_json (response : outcome jvalue) (c : coordinator)
  : outcome jvalue * coordinator :=
  let url := (BASE ++ String.concat "," (_symbols c))%string in
  (response, set_websession_gets (websession_gets c ++ [url]) c).

Definition _async_update (response : outcome jvalue) (c : coordinator)
  : outcome snapshot * coordinator :=
  let '(fetched, c) := get_json response c in
  (json ← fetched;
   if is_None json then Raise (UpdateFailed (JStr "No data received")) else
   found ← py_in "quoteResponse" json;
   if negb found then
     Raise (UpdateFailed (JStr "Data invalid, 'quoteResponse' not found."))
   else
   quoteResponse ← py_getitem json "quoteResponse";
   _ ← (found ← py_in "error" quoteResponse;
        if found : bool then
          error ← py_getitem quoteResponse "error";
          if is_None error then Return () else Raise (UpdateFailed error)
        else Return () : outcome unit);
   found ← py_in "result" quoteResponse;
   if negb found then
     Raise (UpdateFailed (JStr "Data invalid, no 'result' found"))
   else
   result ← py_getitem quoteResponse "result";
   if is_None result then
     Raise (UpdateFailed (JStr "Data invalid, 'result' is None"))
   else
   items ← py_iter result;
   for_each (λ (symbol_data : jvalue) (data : snapshot),
       symbol ← py_getitem symbol_data "symbol";
       record ← parse_symbol_data symbol_data;
       key ← py_hash symbol;
       let data := <[key := record]> data in
       (* the argument of the debug log: data[symbol][DATA_REGULAR_MARKET_PRICE] *)
       _ ← py_getitem (JObj record) DATA_REGULAR_MARKET_PRICE;
       Return data)
     items ∅,
   c).

Definition _async_update_with_retry (response : outcome jvalue) (c : coordinator)
  : outcome snapshot * coordinator :=
  match _async_update response c with
  | (Return d, c) => (Return d, c)
  | (Raise e, c) =>
      let c := _add_refresh_later FAILURE_ASYNC_REQUEST_REFRESH c in
      (Raise e, c)
  end.

(** Modelled from the spec: [DataUpdateCoordinator.async_refresh] belongs
    to the Home Assistant framework and is not part of this repository.
    It awaits the update method given to the constructor, here
    [_async_update_with_retry].  By section 4.2 of the specification and
    the docstring of [_async_update], a returned value replaces the
    Snapshot and sets [last_update_success]; an exception is handled there,
    clears [last_update_success] and leaves the Snapshot as it was.  The
    framework does not know the coordinator's [_refresh_remover]. *)
Definition async_refresh (response : outcome jvalue) (c : coordinator)
  : coordinator :=
  match _async_update_with_retry response c with
  | (Return d, c) => set_data (Some d) true c
  | (Raise _, c) => set_data (data c) false c
  end.

(** *** Runs of the coordinator

    What can happen to a coordinator once it is constructed: a consumer
    adds a symbol or reads the symbols, the framework runs a refresh whose
    fetch is answered by [response], or an armed timer elapses and calls
    [async_request_refresh_later]. *)
Inductive event : Type :=
| AddSymbol (symbol : string)
| GetSymbols
| Refresh (response : outcome jvalue)
| TimerFires (h : nat).

Definition fire (h : nat) (c : coordinator) : coordinator :=
  if decide (h ∈ handle <$> call_later c) then
    async_request_refresh_later (remove_timer h c)
  else c.

Definition step (ev : event) (c : coordinator) : coordinator :=
  match ev with
  | AddSymbol symbol => (add_symbol symbol c).2
  | GetSymbols => c
  | Refresh response => async_refresh response c
  | TimerFires h => fire h c
  end.

Definition run (evs : list event) (c : coordinator) : coordinator :=
  foldl (λ c ev, step ev c) c evs.

End Const.

(** ** The configured symbols *)

(** [vol.Upper] on the letters a to z; [BASIC_SYMBOL_SCHEMA] applies it to
    the symbols of the configuration, before [normalize_input] sees them. *)
Definition upper_ascii (a : Ascii.ascii) : Ascii.ascii :=
  let n := Ascii.nat_of_ascii a in
  if (97 <=? n)%nat && (n <=? 122)%nat then Ascii.ascii_of_nat (n - 32) else a.

Fixpoint upper (s : string) : string :=
  match s with
  | EmptyString => EmptyString
  | String a rest => String (upper_ascii a) (upper rest)
  end.

Definition BASIC_SYMBOL_SCHEMA (symbol : string) : string := upper symbol.

(** An entry of the configured symbol list, as [CONFIG_SCHEMA] admits it:
    a str, or a dict with the required key ["symbol"] and the optional
    target currency. *)
Inductive symbol_definition : Type :=
| Plain (symbol : string)
| Complex (symbol : string) (target_currency : option string).

Definition symbol_of (value : symbol_definition) : string :=
  match value with
  | Plain symbol => symbol
  | Complex symbol _ => symbol
  end.

Section SetOrder.

(** [symbols] in [normalize_input] is a Python [set].  A set keeps no
    order of insertion: [list(symbols)] enumerates the members in the order
    of the hash table, which follows the hashes of the strings.  The set is
    embedded as the list of its members in the order they were added, and
    [set_order] is the enumeration [list(...)] makes of it. *)
Variable set_order : list string → list string.

Fixpoint normalize_loop (defined_symbols : list symbol_definition)
    (symbols : list string) (normalized_symbols : list symbol_definition)
  : list string * list symbol_definition :=
  match defined_symbols with
  | [] => (symbols, normalized_symbols)
  | Plain value :: rest =>
      if decide (value ∉ symbols) then
        normalize_loop rest (symbols ++ [value])
          (normalized_symbols ++ [Complex value None])
      else normalize_loop rest symbols normalized_symbols
  | Complex symbol target :: rest =>
      if decide (symbol ∉ symbols) then
        normalize_loop rest (symbols ++ [symbol])
          (normalized_symbols ++ [Complex symbol target])
      else normalize_loop rest symbols normalized_symbols
  end.

Definition normalize_input (defined_symbols : list symbol_definition)
  : list string * list symbol_definition :=
  let '(symbols, normalized_symbols) := normalize_loop defined_symbols [] [] in
  (set_order symbols, normalized_symbols).

End SetOrder.

(** The identifiers of a list in first-seen order, each once: the order
    the specification gives to the tracked symbol set. *)
Fixpoint first_seen_from (seen l : list string) : list string :=
  match l with
  | [] => []
  | x :: l =>
      if decide (x ∈ seen) then first_seen_from seen l
      else x :: first_seen_from (seen ++ [x]) l
  end.

Definition first_seen (l : list string) : list string := first_seen_from [] l.

(** ** The payload violations of the specification

    Section 4.2, step 2, names five violations of the payload shape.
    [first_violation] follows the words of the specification, in the order
    it lists them; [diagnostic] is the message each one carries. *)
Inductive violation : Type :=
| NoData
| MissingContainer
| EmbeddedError (error : jvalue)
| MissingResultList
| NullResultList.

Definition member (j : jvalue) (key : string) : option jvalue :=
  match j with
  | JObj o => o !! key
  | _ => None
  end.

Definition result_violation (quoteResponse : jvalue) : option violation :=
  match member quoteResponse "result" with
  | None => Some MissingResultList
  | Some result => if is_None result then Some NullResultList else None
  end.

Definition first_violation (payload : jvalue) : option violation :=
  if is_None payload then Some NoData else
  match member payload "quoteResponse" with
  | None => Some MissingContainer
  | Some quoteResponse =>
      match member quoteResponse "error" with
      | Some error =>
          if is_None error then result_violation quoteResponse
          else Some (EmbeddedError error)
      | None => result_violation quoteResponse
      end
  end.

(** Each violation on its own, whether or not an earlier check already
    fails. *)
Definition violates (payload : jvalue) (v : violation) : Prop :=
  match v with
  | NoData => payload = JNull
  | MissingContainer => member payload "quoteResponse" = None
  | EmbeddedError error =>
      ∃ q, member payload "quoteResponse" = Some q
        ∧ member q "error" = Some error ∧ error ≠ JNull
  | MissingResultList =>
      ∃ q, member payload "quoteResponse" = Some q ∧ member q "result" = None
  | NullResultList =>
      ∃ q, member payload "quoteResponse" = Some q
        ∧ member q "result" = Some JNull
  end.

Definition diagnostic (v : violation) : jvalue :=
  match v with
  | NoData => JStr "No data received"
  | MissingContainer => JStr "Data invalid, 'quoteResponse' not found."
  | EmbeddedError error => error
  | MissingResultList => JStr "Data invalid, no 'result' found"
  | NullResultList => JStr "Data invalid, 'result' is None"
  end.

(** The payload is absent, or it is an object whose ["quoteResponse"], when
    there is one, is an object too. *)
Definition object_shaped (payload : jvalue) : Prop :=
  match payload with
  | JNull => True
  | JObj o =>
      match o !! "quoteResponse" with
      | Some (JObj _) | None => True
      | Some _ => False
      end
  | _ => False
  end.

(** ** Sample data

    An instance of the tables of [const.py] and the payloads of section 8
    of the specification, on which the theorems are exercised. *)
Module Sample.

Definition NUMERIC_DATA_KEYS : list (string * bool) :=
  [("regularMarketChange", true); ("regularMarketPreviousClose", true);
   ("regularMarketPrice", true); ("twoHundredDayAverageChangePercent", false)].

Definition STRING_DATA_KEYS : list string := ["currency"; "shortName"].

Definition DATA_REGULAR_MARKET_PRICE : string := "regularMarketPrice".

Definition BASE : string :=
  "https://query1.finance.yahoo.com/v7/finance/quote?symbols=".

Definition baba : gmap string jvalue :=
  {[ "symbol" := JStr "BABA";
     "regularMarketPrice" := JNum (23273 # 100);
     "regularMarketChange" := JNum (-566 # 100);
     "twoHundredDayAverageChangePercent" := JNum (-1261 # 10000) ]}.

Definition well_formed : jvalue :=
  JObj {[ "quoteResponse" :=
            JObj {[ "error" := JNull; "result" := JList [JObj baba] ]} ]}.

Definition rate_limited : jvalue :=
  JObj {[ "quoteResponse" :=
            JObj {[ "error" := JStr "rate limited"; "result" := JNull ]} ]}.

Definition no_symbol : jvalue :=
  JObj {[ "quoteResponse" :=
            JObj {[ "result" := JList [JObj {[ "shortName" := JStr "Alibaba" ]}] ]} ]}.

Definition _async_update :=
  _async_update NUMERIC_DATA_KEYS STRING_DATA_KEYS DATA_REGULAR_MARKET_PRICE BASE.
Definition _async_update_with_retry :=
  _async_update_with_retry NUMERIC_DATA_KEYS STRING_DATA_KEYS
    DATA_REGULAR_MARKET_PRICE BASE.
Definition async_refresh :=
  async_refresh NUMERIC_DATA_KEYS STRING_DATA_KEYS DATA_REGULAR_MARKET_PRICE BASE.
Definition run :=
  run NUMERIC_DATA_KEYS STRING_DATA_KEYS DATA_REGULAR_MARKET_PRICE BASE.
Definition parse_symbol_data :=
  parse_symbol_data NUMERIC_DATA_KEYS STRING_DATA_KEYS.

(** The record and the Snapshot expected for [well_formed]. *)
Definition baba_record : gmap string jvalue :=
  {[ "regularMarketChange" := JNum (-566 # 100);
     "regularMarketPreviousClose" := JNum 0;
     "regularMarketPrice" := JNum (23273 # 100);
     "twoHundredDayAverageChangePercent" := JNum (-1261 # 10000);
     "currency" := JNull;
     "shortName" := JNull ]}.

Definition baba_snapshot : snapshot := {[ KStr "BABA" := baba_record ]}.

(** A coordinator tracking BABA whose first refresh was rate limited: the
    retry timer is pending. *)
Definition retry_pending : coordinator :=
  async_refresh (Return rate_limited) (__init__ ["BABA"]).

End Sample.

(** ** The set-up of the component *)

(** What [parse_scan_interval] and [async_setup] can raise: [vol.Invalid]
    with its message, and the [TypeError] of comparing [None] with a
    [timedelta]. *)
Inductive setup_exn : Type :=
| Invalid (message : string)
| SetupTypeError.

Inductive setup_outcome (A : Type) : Type :=
| Done (a : A)
| Failed (e : setup_exn).
Arguments Done {A} a.
Arguments Failed {A} e.

(** The configured scan interval: a str, a [timedelta], counted in
    microseconds, or [None] when the key is missing. *)
Inductive scan_interval_value : Type :=
| ScanStr (s : string)
| ScanDelta (microseconds : Z)
| ScanNone.

Definition seconds (n : Z) : Z := (n * 1000000)%Z.
Definition hours (n : Z) : Z := seconds (n * 3600).

Definition DEFAULT_SCAN_INTERVAL : Z := hours 6.
Definition MINIMUM_SCAN_INTERVAL : Z := seconds 30.

(** [str.lower] on the letters A to Z.  No other character lowers to one of
    the letters of ["none"], so the test [scan_interval.lower() == "none"]
    is the same on every str. *)
Definition lower_ascii (a : Ascii.ascii) : Ascii.ascii :=
  let n := Ascii.nat_of_ascii a in
  if (65 <=? n)%nat && (n <=? 90)%nat then Ascii.ascii_of_nat (n + 32) else a.

Fixpoint lower (s : string) : string :=
  match s with
  | EmptyString => EmptyString
  | String a rest => String (lower_ascii a) (lower rest)
  end.

Section Setup.

(** [CONF_SCAN_INTERVAL] comes from [homeassistant.const]; the tables of
    [const.py] are parameters as before. *)
Variable CONF_SCAN_INTERVAL : string.
Variable NUMERIC_DATA_KEYS : list (string * bool).
Variable STRING_DATA_KEYS : list string.
Variable DATA_REGULAR_MARKET_PRICE : string.
Variable BASE : string.
Variable set_order : list string → list string.

Definition parse_scan_interval (scan_interval : scan_interval_value)
  : setup_outcome scan_interval_value :=
  match scan_interval with
  | ScanStr s =>
      if decide (lower s = "none") then Done ScanNone
      else Failed (Invalid ("Invalid " ++ CONF_SCAN_INTERVAL
                            ++ " specified: " ++ s)%string)
  | ScanDelta d =>
      if decide (d < MINIMUM_SCAN_INTERVAL)%Z then
        Failed (Invalid "Scan interval should be at least 30 seconds.")
      else Done (ScanDelta d)
  | ScanNone => Failed SetupTypeError
  end.

(** The part of the configuration under [DOMAIN] that [async_setup] reads:
    the symbols, an empty list when the key is missing, and the scan
    interval. *)
Record domain_config : Type := DomainConfig {
  conf_symbols : list symbol_definition;
  conf_scan_interval : scan_interval_value;
}.

(** [async_setup] returns [True] and leaves in [hass.data] the coordinator
    and the configuration it normalized.  [response] answers the fetch of
    the first refresh; the task created for [async_request_refresh] is
    counted as a refresh request. *)
Definition async_setup (config : domain_config) (response : outcome jvalue)
  : setup_outcome (bool * (coordinator * domain_config)) :=
  let defined_symbols := conf_symbols config in
  let '(symbols, normalized_symbols) :=
    normalize_input set_order defined_symbols in
  match parse_scan_interval (conf_scan_interval config) with
  | Failed e => Failed e
  | Done scan_interval =>
      let domain_config := DomainConfig normalized_symbols scan_interval in
      let coordinator := __init__ symbols in
      let coordinator :=
        async_refresh NUMERIC_DATA_KEYS STRING_DATA_KEYS
          DATA_REGULAR_MARKET_PRICE BASE response coordinator in
      let coordinator :=
        if negb (last_update_success coordinator)
        then async_request_refresh coordinator
        else coordinator in
      Done (true, (coordinator, domain_config))
  end.

End Setup.

(** [COMPLEX_SYMBOL_SCHEMA] and [BASIC_SYMBOL_SCHEMA] on an entry of the
    configured symbols: the symbol and the target currency are
    upper-cased. *)
Definition symbol_schema (value : symbol_definition) : symbol_definition :=
  match value with
  | Plain symbol => Plain (BASIC_SYMBOL_SCHEMA symbol)
  | Complex symbol target =>
      Complex (BASIC_SYMBOL_SCHEMA symbol) (BASIC_SYMBOL_SCHEMA <$> target)
  end.

(** The dict that [normalize_input] keeps for an entry. *)
Definition as_dict (value : symbol_definition) : symbol_definition :=
  match value with
  | Plain symbol => Complex symbol None
  | Complex symbol target => Complex symbol target
  end.

(** The key under which [_async_update] stores an element of the result
    list, when it has one: the element is a dict whose ["symbol"] is
    hashable. *)
Definition element_key (symbol_data : jvalue) : option pykey :=
  match symbol_data with
  | JObj o =>
      match o !! "symbol" with
      | Some symbol =>
          match py_hash symbol with
          | Return key => Some key
          | Raise _ => None
          end
      | None => None
      end
  | _ => None
  end.

(** The shape a payload has on the wire: it is absent, or it is a dict
    whose ["quoteResponse"], when there is one, is a dict whose
    ["result"], when there is one and it is not [None], is a list of
    dicts that each carry a hashable ["symbol"]. *)
Definition wire_shaped (payload : jvalue) : Prop :=
  match payload with
  | JNull => True
  | JObj o =>
      match o !! "quoteResponse" with
      | None => True
      | Some (JObj q) =>
          match q !! "result" with
          | None | Some JNull => True
          | Some (JList items) => Forall (λ x, is_Some (element_key x)) items
          | Some _ => False
          end
      | Some _ => False
      end
  | _ => False
  end.

(** Further sample data: a payload that lists BABA twice, a schema that
    does not list the price field, and a configuration. *)
Module More.

Definition CONF_SCAN_INTERVAL : string := "scan_interval".

Definition baba_later : gmap string jvalue :=
  {[ "symbol" := JStr "BABA"; "regularMarketPrice" := JNum (24000 # 100) ]}.

Definition twice : jvalue :=
  JObj {[ "quoteResponse" :=
            JObj {[ "result" := JList [JObj Sample.baba; JObj baba_later] ]} ]}.

Definition later_record : gmap string jvalue :=
  {[ "regularMarketChange" := JNum 0;
     "regularMarketPreviousClose" := JNum 0;
     "regularMarketPrice" := JNum (24000 # 100);
     "twoHundredDayAverageChangePercent" := JNum 0;
     "currency" := JNull;
     "shortName" := JNull ]}.

Definition twice_snapshot : snapshot := {[ KStr "BABA" := later_record ]}.

Definition NUMERIC_WITHOUT_PRICE : list (string * bool) :=
  [("regularMarketChange", true)].

Definition config : domain_config :=
  DomainConfig [Plain "BABA"; Complex "BABA" (Some "EUR"); Plain "MSFT"]
    (ScanDelta DEFAULT_SCAN_INTERVAL).

Definition async_setup :=
  async_setup CONF_SCAN_INTERVAL Sample.NUMERIC_DATA_KEYS
    Sample.STRING_DATA_KEYS Sample.DATA_REGULAR_MARKET_PRICE Sample.BASE.

End More.

(** ** Auxiliary definitions for the proofs *)

(** What the two loops of [parse_symbol_data] compute on a dict [o]. *)
Definition fill (dflt : jvalue) (o : gmap string jvalue) (keys : list string)
    (data : gmap string jvalue) : gmap string jvalue :=
  foldl (λ data key, <[key := default dflt (o !! key)]> data) data keys.

(** The entries of a configured list whose symbol was not seen before. *)
Fixpoint first_definitions (seen : list string)
    (l : list symbol_definition) : list symbol_definition :=
  match l with
  | [] => []
  | value :: l =>
      if decide (symbol_of value ∈ seen) then first_definitions seen l
      else value :: first_definitions (seen ++ [symbol_of value]) l
  end.

(** The result list of a payload that passes the checks of
    [_async_update]: the container is a dict, its ["error"] is missing or
    [None], and its ["result"] is a list. *)
Definition result_list (payload : jvalue) : option (list jvalue) :=
  match member payload "quoteResponse" with
  | Some (JObj q) =>
      match default JNull (q !! "error"), q !! "result" with
      | JNull, Some (JList items) => Some items
      | _, _ => None
      end
  | _ => None
  end.

(** How many refreshes and how many timer events a run holds. *)
Fixpoint refreshes (evs : list event) : nat :=
  match evs with
  | [] => 0
  | Refresh _ :: evs => S (refreshes evs)
  | _ :: evs => refreshes evs
  end.

Fixpoint timer_events (evs : list event) : nat :=
  match evs with
  | [] => 0
  | TimerFires _ :: evs => S (timer_events evs)
  | _ :: evs => timer_events evs
  end.

(** A str of ASCII characters only, on which [upper] is [str.upper]. *)
Fixpoint ascii_only (s : string) : bool :=
  match s with
  | EmptyString => true
  | String a rest => (Ascii.nat_of_ascii a <? 128)%nat && ascii_only rest
  end.

(** The sixteen spellings of ["none"]. *)
Definition none_spellings : list string :=
  a ← ["n"; "N"]; b ← ["o"; "O"]; c ← ["n"; "N"]; d ← ["e"; "E"];
  [(a ++ b ++ c ++ d)%string].

(** The timers of the event loop and the remover slot agree: every armed
    timer is the one whose remover the coordinator holds, there is at most
    one, and handles are never reused. *)
Definition timer_invariant (c : coordinator) : Prop :=
  (∀ t, t ∈ call_later c → _refresh_remover c = Some (handle t))
  ∧ (List.length (call_later c) ≤ 1)%nat
  ∧ (∀ t, t ∈ call_later c → (handle t < next_handle c)%nat).

(** * Properties *)

(** ** The remover slot and the timers *)

Lemma add_refresh_later_frame duration c :
  _symbols (_add_refresh_later duration c) = _symbols c
  ∧ data (_add_refresh_later duration c) = data c
  ∧ last_update_success (_add_refresh_later duration c) = last_update_success c
  ∧ refresh_requests (_add_refresh_later duration c) = refresh_requests c
  ∧ websession_gets (_add_refresh_later duration c) = websession_gets c.
Proof.
  unfold _add_refresh_later. destruct (_refresh_remover c); simpl; auto.
Qed.

Lemma filter_none_armed (h : nat) (ts : list timer) :
  (∀ t, t ∈ ts → handle t = h) → filter (λ t, handle t ≠ h) ts = [].
Proof.
  induction ts as [|t ts IH]; intros Hall; [done|].
  rewrite filter_cons. destruct (decide (handle t ≠ h)) as [Hne|_].
  - exfalso. apply Hne, Hall. left.
  - apply IH. intros t' Ht'. apply Hall. by right.
Qed.

Lemma add_refresh_later_armed duration c :
  timer_invariant c →
  call_later (_add_refresh_later duration c) = [Timer (next_handle c) duration]
  ∧ _refresh_remover (_add_refresh_later duration c) = Some (next_handle c)
  ∧ next_handle (_add_refresh_later duration c) = S (next_handle c).
Proof.
  intros (Hslot & _ & _). unfold _add_refresh_later.
  destruct (_refresh_remover c) as [h|] eqn:Hrem; simpl.
  - rewrite filter_none_armed; [done|].
    intros t Ht. specialize (Hslot t Ht). congruence.
  - destruct (call_later c) as [|t ts]; [done|].
    specialize (Hslot t). discriminate Hslot. left.
Qed.

Lemma add_refresh_later_invariant duration c :
  timer_invariant c → timer_invariant (_add_refresh_later duration c).
Proof.
  intros Hinv. destruct (add_refresh_later_armed duration c Hinv) as (Ht & Hr & Hn).
  unfold timer_invariant. rewrite Ht, Hr, Hn. split_and!.
  - intros t ->%list_elem_of_singleton. done.
  - simpl. lia.
  - intros t ->%list_elem_of_singleton. simpl. lia.
Qed.

Lemma init_invariant symbols : timer_invariant (__init__ symbols).
Proof.
  unfold timer_invariant, __init__; simpl. split_and!; [|lia|]; by intros t ?%elem_of_nil.
Qed.

Lemma add_symbol_invariant symbol c :
  timer_invariant c → timer_invariant (add_symbol symbol c).2.
Proof.
  intros Hinv. unfold add_symbol. destruct (decide (symbol ∉ _symbols c)); [|done].
  simpl. by apply add_refresh_later_invariant.
Qed.

Lemma fire_invariant h c : timer_invariant c → timer_invariant (fire h c).
Proof.
  intros (Hslot & Hlen & Hfresh). unfold fire.
  destruct (decide (h ∈ handle <$> call_later c)); [|done].
  unfold timer_invariant; simpl. split_and!.
  - intros t [_ Ht]%list_elem_of_filter. by apply Hslot.
  - pose proof (length_filter (λ t, handle t ≠ h) (call_later c)). lia.
  - intros t [_ Ht]%list_elem_of_filter. by apply Hfresh.
Qed.

(** A closed decidable proposition, by evaluation. *)
Ltac by_decision := apply (bool_decide_unpack _); vm_compute; exact I.

(** Unfolding of the methods, whose names the section below abbreviates. *)
Ltac unfold_update := unfold _async_update, get_json.
Ltac unfold_retry := unfold _async_update_with_retry.
Ltac unfold_refresh := unfold async_refresh.
Ltac unfold_run := unfold run.
Ltac unfold_parse := unfold parse_symbol_data.

(** One case split along the checks of [_async_update]: on the substring or
    membership test when the value at hand is a str or a list, on the
    presence of the key when it is a dict. *)
Ltac payload_case :=
  match goal with
  | |- context [String.index 0 ?k ?s] => destruct (String.index 0 k s)
  | |- context [existsb (is_str ?k) ?l] => destruct (existsb (is_str k) l)
  | |- context [?o !! "quoteResponse"] =>
      destruct (o !! "quoteResponse") as [[]|]
  | |- context [?o !! "error"] => destruct (o !! "error") as [[]|]
  | |- context [?o !! "result"] => destruct (o !! "result") as [[]|]
  end.

Ltac payload_cases payload :=
  unfold _async_update, get_json, first_violation, result_violation;
  cbn [fst];
  destruct payload; simpl; try done;
  repeat (payload_case; simpl; try done).

Section Properties.

Variable NUMERIC_DATA_KEYS : list (string * bool).
Variable STRING_DATA_KEYS : list string.
Variable DATA_REGULAR_MARKET_PRICE : string.
Variable BASE : string.

Local Abbreviation _async_update :=
  (_async_update NUMERIC_DATA_KEYS STRING_DATA_KEYS DATA_REGULAR_MARKET_PRICE BASE).
Local Abbreviation _async_update_with_retry :=
  (_async_update_with_retry NUMERIC_DATA_KEYS STRING_DATA_KEYS
     DATA_REGULAR_MARKET_PRICE BASE).
Local Abbreviation async_refresh :=
  (async_refresh NUMERIC_DATA_KEYS STRING_DATA_KEYS DATA_REGULAR_MARKET_PRICE BASE).
Local Abbreviation step :=
  (step NUMERIC_DATA_KEYS STRING_DATA_KEYS DATA_REGULAR_MARKET_PRICE BASE).
Local Abbreviation run :=
  (run NUMERIC_DATA_KEYS STRING_DATA_KEYS DATA_REGULAR_MARKET_PRICE BASE).
Local Abbreviation parse_symbol_data :=
  (parse_symbol_data NUMERIC_DATA_KEYS STRING_DATA_KEYS).

(** *** What a refresh leaves alone *)

(** [_async_update] writes nothing but the log of requests. *)
Lemma async_update_state response c :
  (_async_update response c).2
  = set_websession_gets
      (websession_gets c ++ [(BASE ++ String.concat "," (_symbols c))%string]) c.
Proof. reflexivity. Qed.

Lemma async_update_with_retry_returns response c d :
  (_async_update response c).1 = Return d →
  _async_update_with_retry response c = (Return d, (_async_update response c).2).
Proof.
  intros Hd. unfold_retry.
  destruct (_async_update response c) as [r c']. simpl in Hd. by subst r.
Qed.

Lemma async_update_with_retry_raises response c e :
  (_async_update response c).1 = Raise e →
  _async_update_with_retry response c
  = (Raise e,
     _add_refresh_later FAILURE_ASYNC_REQUEST_REFRESH (_async_update response c).2).
Proof.
  intros He. unfold_retry.
  destruct (_async_update response c) as [r c']. simpl in He. by subst r.
Qed.

Lemma timer_invariant_gets l c :
  timer_invariant c → timer_invariant (set_websession_gets l c).
Proof. done. Qed.

Lemma async_update_with_retry_invariant response c :
  timer_invariant c → timer_invariant (_async_update_with_retry response c).2.
Proof.
  intros Hinv.
  destruct (_async_update response c).1 as [d|e] eqn:Hr.
  - rewrite (async_update_with_retry_returns _ _ _ Hr). simpl.
    by apply timer_invariant_gets.
  - rewrite (async_update_with_retry_raises _ _ _ Hr). simpl.
    by apply add_refresh_later_invariant, timer_invariant_gets.
Qed.

Lemma async_update_with_retry_symbols response c :
  _symbols (_async_update_with_retry response c).2 = _symbols c.
Proof.
  destruct (_async_update response c).1 as [d|e] eqn:Hr.
  - by rewrite (async_update_with_retry_returns _ _ _ Hr).
  - rewrite (async_update_with_retry_raises _ _ _ Hr). cbn [snd].
    by destruct (add_refresh_later_frame FAILURE_ASYNC_REQUEST_REFRESH
                   (_async_update response c).2) as [-> _].
Qed.

Lemma async_refresh_invariant response c :
  timer_invariant c → timer_invariant (async_refresh response c).
Proof.
  intros Hinv. pose proof (async_update_with_retry_invariant response c Hinv) as H.
  unfold_refresh.
  by destruct (_async_update_with_retry response c) as [[d|e] c'].
Qed.

Lemma async_refresh_symbols response c :
  _symbols (async_refresh response c) = _symbols c.
Proof.
  pose proof (async_update_with_retry_symbols response c) as H.
  unfold_refresh.
  by destruct (_async_update_with_retry response c) as [[d|e] c'].
Qed.

Lemma step_invariant ev c : timer_invariant c → timer_invariant (step ev c).
Proof.
  destruct ev; simpl; intros Hinv; [|done| |].
  - by apply add_symbol_invariant.
  - by apply async_refresh_invariant.
  - by apply fire_invariant.
Qed.

Lemma run_snoc evs ev c : run (evs ++ [ev]) c = step ev (run evs c).
Proof. unfold_run. by rewrite foldl_app. Qed.

Lemma run_invariant evs c : timer_invariant c → timer_invariant (run evs c).
Proof.
  intros Hinv. induction evs as [|ev evs IH] using rev_ind; [done|].
  rewrite run_snoc. by apply step_invariant.
Qed.

(** *** The symbol registry *)

Lemma add_symbol_present symbol c :
  symbol ∈ _symbols c → add_symbol symbol c = (false, c).
Proof. intros Hin. unfold add_symbol. by destruct (decide (symbol ∉ _symbols c)). Qed.

Lemma add_symbol_absent symbol c :
  symbol ∉ _symbols c →
  add_symbol symbol c
  = (true, _add_refresh_later DELAY_ASYNC_REQUEST_REFRESH
             (set_symbols (_symbols c ++ [symbol]) c)).
Proof. intros Hin. unfold add_symbol. by destruct (decide (symbol ∉ _symbols c)). Qed.

Lemma add_symbol_symbols symbol c :
  _symbols (add_symbol symbol c).2
  = if decide (symbol ∈ _symbols c) then _symbols c else _symbols c ++ [symbol].
Proof.
  destruct (decide (symbol ∈ _symbols c)) as [Hin|Hin].
  - by rewrite add_symbol_present.
  - rewrite add_symbol_absent by done. cbn [snd].
    by destruct (add_refresh_later_frame DELAY_ASYNC_REQUEST_REFRESH
                   (set_symbols (_symbols c ++ [symbol]) c)) as [-> _].
Qed.

(** A step changes the tracked symbols only when it is [add_symbol] of an
    identifier not yet tracked, which it appends. *)
Lemma step_symbols ev c :
  _symbols (step ev c) = _symbols c
  ∨ ∃ symbol, ev = AddSymbol symbol ∧ (symbol ∉ _symbols c)
      ∧ _symbols (step ev c) = _symbols c ++ [symbol].
Proof.
  destruct ev as [symbol| |response|h]; simpl.
  - rewrite add_symbol_symbols.
    destruct (decide (symbol ∈ _symbols c)); [by left|].
    right. eauto.
  - by left.
  - left. apply async_refresh_symbols.
  - left. unfold fire. by destruct (decide (h ∈ handle <$> call_later c)).
Qed.

Lemma run_symbols evs c :
  ∃ added, _symbols (run evs c) = _symbols c ++ added
    ∧ (∀ symbol, symbol ∈ added → AddSymbol symbol ∈ evs)
    ∧ (NoDup (_symbols c) → NoDup (_symbols (run evs c))).
Proof.
  induction evs as [|ev evs (added & Heq & Hfrom & Hnodup)] using rev_ind.
  - exists []. split_and!; [by rewrite app_nil_r|by intros ? ?%elem_of_nil|done].
  - rewrite run_snoc.
    destruct (step_symbols ev (run evs c)) as [Hsame|(symbol & -> & Hnew & Happ)].
    + exists added. rewrite Hsame. split_and!; [done| |done].
      intros symbol Hin. apply elem_of_app. left. by apply Hfrom.
    + exists (added ++ [symbol]). rewrite Happ, Heq, (assoc_L (++)).
      split_and!; [done| |].
      * intros s [Hin| ->%list_elem_of_singleton]%elem_of_app;
          apply elem_of_app; [left; by apply Hfrom|right; left].
      * intros Hc. rewrite <- Heq. apply NoDup_app. split_and!; [by apply Hnodup| |].
        -- intros s Hs ->%list_elem_of_singleton. done.
        -- apply NoDup_singleton.
Qed.

Lemma run_added evs c symbol :
  AddSymbol symbol ∈ evs → symbol ∈ _symbols (run evs c).
Proof.
  induction evs as [|ev evs IH] using rev_ind; [by intros ?%elem_of_nil|].
  rewrite run_snoc. intros [Hin| <-%list_elem_of_singleton]%elem_of_app.
  - destruct (step_symbols ev (run evs c)) as [->|(s & _ & _ & ->)]; [by apply IH|].
    apply elem_of_app. left. by apply IH.
  - simpl. rewrite add_symbol_symbols.
    destruct (decide (symbol ∈ _symbols (run evs c))); [done|].
    apply elem_of_app. right. left.
Qed.

Lemma fire_armed h d c :
  call_later c = [Timer h d] →
  refresh_requests (fire h c) = S (refresh_requests c)
  ∧ call_later (fire h c) = [].
Proof.
  intros Ht. unfold fire. rewrite Ht.
  destruct (decide (h ∈ handle <$> [Timer h d])) as [_|Hn].
  - unfold async_request_refresh_later, async_request_refresh, remove_timer.
    simpl. rewrite Ht, filter_cons. simpl.
    by destruct (decide (h ≠ h)).
  - exfalso. apply Hn. left.
Qed.

(** C6 (amended).  [add_symbol] stores an identifier as it is given, without
    folding its case.  On a coordinator built from duplicate-free symbols,
    re-adding an identifier that is tracked under the same spelling returns
    false and leaves the coordinator unchanged; an identifier not tracked
    under that spelling is appended and the call returns true.  Afterwards
    [get_symbols] holds the identifier, and every identifier added during
    the run, exactly once, in the spelling it was given. *)
Theorem add_symbol_keeps_spelling (symbols : list string) (evs : list event)
    (symbol : string) :
  NoDup symbols →
  let c := run evs (__init__ symbols) in
  let after := add_symbol symbol c in
  (symbol ∈ get_symbols c → after = (false, c))
  ∧ (symbol ∉ get_symbols c →
     after.1 = true ∧ get_symbols after.2 = get_symbols c ++ [symbol])
  ∧ symbol ∈ get_symbols after.2
  ∧ NoDup (get_symbols after.2)
  ∧ (∀ added, AddSymbol added ∈ evs → added ∈ get_symbols after.2).
Proof.
  intros Hnodup c after. unfold get_symbols.
  assert (NoDup (_symbols c)) as Hc.
  { destruct (run_symbols evs (__init__ symbols)) as (_ & _ & _ & H). by apply H. }
  assert (_symbols after.2
          = if decide (symbol ∈ _symbols c) then _symbols c
            else _symbols c ++ [symbol]) as Hafter by apply add_symbol_symbols.
  split_and!.
  - apply add_symbol_present.
  - intros Hnew. subst after. rewrite Hafter, add_symbol_absent by done.
    by destruct (decide (symbol ∈ _symbols c)).
  - rewrite Hafter. destruct (decide (symbol ∈ _symbols c)); [done|].
    apply elem_of_app. right. left.
  - rewrite Hafter. destruct (decide (symbol ∈ _symbols c)); [done|].
    apply NoDup_app. split_and!; [done| |apply NoDup_singleton].
    by intros s Hs ->%list_elem_of_singleton.
  - intros added Hadded. rewrite Hafter.
    pose proof (run_added evs (__init__ symbols) added Hadded) as Hin.
    destruct (decide (symbol ∈ _symbols c)); [done|].
    apply elem_of_app. by left.
Qed.

(** C8.  On every coordinator reached by a run, [add_symbol] of a symbol
    not yet tracked appends it to the registry and returns true.  It arms a
    one-shot timer for [DELAY_ASYNC_REQUEST_REFRESH], which is 5 seconds
    and differs from the failure delay of 20 seconds; when that timer
    fires it requests a refresh.  The call itself issues no request to the
    web session and no refresh request, and leaves the Snapshot and
    [last_update_success] as they were. *)
Theorem add_symbol_warm_up (symbols : list string) (evs : list event)
    (symbol : string) :
  let c := run evs (__init__ symbols) in
  symbol ∉ get_symbols c →
  ∃ c', add_symbol symbol c = (true, c')
    ∧ get_symbols c' = get_symbols c ++ [symbol]
    ∧ (∃ h, call_later c' = [Timer h DELAY_ASYNC_REQUEST_REFRESH]
         ∧ _refresh_remover c' = Some h
         ∧ refresh_requests (fire h c') = S (refresh_requests c')
         ∧ call_later (fire h c') = [])
    ∧ DELAY_ASYNC_REQUEST_REFRESH = 5%Z
    ∧ DELAY_ASYNC_REQUEST_REFRESH ≠ FAILURE_ASYNC_REQUEST_REFRESH
    ∧ websession_gets c' = websession_gets c
    ∧ refresh_requests c' = refresh_requests c
    ∧ data c' = data c
    ∧ last_update_success c' = last_update_success c.
Proof.
  intros c Hnew. unfold get_symbols in *.
  rewrite add_symbol_absent by done. eexists. split; [done|].
  set (c1 := set_symbols (_symbols c ++ [symbol]) c).
  assert (timer_invariant c1) as Hinv.
  { apply (run_invariant evs), init_invariant. }
  destruct (add_refresh_later_frame DELAY_ASYNC_REQUEST_REFRESH c1)
    as (Hs & Hd & Hl & Hr & Hw).
  destruct (add_refresh_later_armed DELAY_ASYNC_REQUEST_REFRESH c1 Hinv)
    as (Ht & Hrem & _).
  split_and!; try done.
  exists (next_handle c1). split; [done|]. split; [done|].
  by apply (fire_armed _ DELAY_ASYNC_REQUEST_REFRESH).
Qed.

(** C9.  On every coordinator reached by a run, at most one timer is armed
    and it is the one whose remover the coordinator holds.  Arming a timer
    with [_add_refresh_later], for either delay, cancels that timer and
    leaves the new one as the only armed timer; and every step of the
    coordinator, among them [add_symbol] and a failed refresh, which arm a
    timer, leaves at most one timer armed. *)
Theorem one_timer_outstanding (symbols : list string) (evs : list event)
    (duration : Z) :
  let c := run evs (__init__ symbols) in
  let c' := _add_refresh_later duration c in
  List.length (call_later c) ≤ 1
  ∧ (∀ t, t ∈ call_later c → _refresh_remover c = Some (handle t))
  ∧ (∃ h, call_later c' = [Timer h duration] ∧ _refresh_remover c' = Some h
        ∧ ∀ t, t ∈ call_later c → handle t ≠ h)
  ∧ (∀ ev, List.length (call_later (step ev c)) ≤ 1).
Proof.
  intros c c'.
  assert (timer_invariant c) as Hinv by apply run_invariant, init_invariant.
  destruct (add_refresh_later_armed duration c Hinv) as (Ht & Hrem & _).
  pose proof Hinv as (Hslot & Hlen & Hfresh).
  split_and!; [done|done| |].
  - exists (next_handle c). split_and!; [done|done|].
    intros t Hin. specialize (Hfresh t Hin). lia.
  - intros ev. by destruct (step_invariant ev c Hinv) as (_ & ? & _).
Qed.

(** *** The configured symbols *)

Lemma first_seen_from_members seen l :
  NoDup seen →
  NoDup (seen ++ first_seen_from seen l)
  ∧ ∀ x, x ∈ seen ++ first_seen_from seen l ↔ x ∈ seen ∨ x ∈ l.
Proof.
  revert seen. induction l as [|y l IH]; intros seen Hseen; simpl.
  - rewrite app_nil_r. split; [done|]. intros x. rewrite elem_of_nil. tauto.
  - destruct (decide (y ∈ seen)) as [Hy|Hy].
    + destruct (IH seen Hseen) as [Hnd Hmem]. split; [done|].
      intros x. rewrite Hmem, elem_of_cons. split; [tauto|].
      intros [?|[->|?]]; tauto.
    + assert (NoDup (seen ++ [y])) as Hseen'.
      { apply NoDup_app. split_and!; [done| |apply NoDup_singleton].
        by intros x Hx ->%list_elem_of_singleton. }
      destruct (IH (seen ++ [y]) Hseen') as [Hnd Hmem].
      rewrite <- (assoc_L (++)) in Hnd, Hmem. simpl in Hnd, Hmem.
      split; [done|]. intros x.
      rewrite Hmem, elem_of_app, list_elem_of_singleton, elem_of_cons. tauto.
Qed.

Lemma normalize_loop_first_seen defined symbols normalized :
  ∃ appended,
    normalize_loop defined symbols normalized
    = (symbols ++ first_seen_from symbols (symbol_of <$> defined),
       normalized ++ appended)
    ∧ symbol_of <$> appended = first_seen_from symbols (symbol_of <$> defined).
Proof.
  revert symbols normalized.
  induction defined as [|value rest IH]; intros symbols normalized.
  - exists []. by rewrite !app_nil_r.
  - destruct value as [symbol|symbol target]; simpl;
      (destruct (decide (symbol ∉ symbols)) as [Hnew|Hold];
       [ destruct (decide (symbol ∈ symbols)); [done|]
       | destruct (decide (symbol ∈ symbols)); [|done] ]).
    + destruct (IH (symbols ++ [symbol]) (normalized ++ [Complex symbol None]))
        as (appended & -> & Happ).
      exists (Complex symbol None :: appended).
      split; [by rewrite <- !(assoc_L (++))|by rewrite fmap_cons, Happ].
    + apply IH.
    + destruct (IH (symbols ++ [symbol]) (normalized ++ [Complex symbol target]))
        as (appended & -> & Happ).
      exists (Complex symbol target :: appended).
      split; [by rewrite <- !(assoc_L (++))|by rewrite fmap_cons, Happ].
    + apply IH.
Qed.

Lemma normalize_input_first_seen set_order defined :
  (normalize_input set_order defined).1
  = set_order (first_seen (symbol_of <$> defined))
  ∧ symbol_of <$> (normalize_input set_order defined).2
    = first_seen (symbol_of <$> defined).
Proof.
  unfold normalize_input, first_seen.
  destruct (normalize_loop_first_seen defined [] []) as (appended & -> & Happ).
  done.
Qed.

(** C7 (amended).  Whatever order [list(symbols)] enumerates the set in,
    the tracked symbols built from the configured ones are the configured
    identifiers, each once: duplicates are dropped, and the sequence is a
    rearrangement of the first-seen sequence, whose order only the
    normalized definitions keep.  At runtime the tracked symbols never
    shrink: after every run they are the initial ones followed by symbols
    that [add_symbol] appended, still without duplicates, and a step that
    changes them is an [add_symbol] that appends one identifier. *)
Theorem tracked_symbols_unique (set_order : list string → list string)
    (defined : list symbol_definition) (evs : list event) :
  (∀ s, set_order s ≡ₚ s) →
  let names := symbol_of <$> defined in
  let symbols := (normalize_input set_order defined).1 in
  let c := run evs (__init__ symbols) in
  NoDup symbols
  ∧ (∀ x, x ∈ symbols ↔ x ∈ names)
  ∧ symbols ≡ₚ first_seen names
  ∧ symbol_of <$> (normalize_input set_order defined).2 = first_seen names
  ∧ (∃ added, get_symbols c = symbols ++ added
        ∧ ∀ x, x ∈ added → AddSymbol x ∈ evs)
  ∧ NoDup (get_symbols c)
  ∧ (∀ ev, get_symbols (step ev c) = get_symbols c
           ∨ ∃ x, ev = AddSymbol x
                ∧ get_symbols (step ev c) = get_symbols c ++ [x]).
Proof.
  intros Hperm names symbols c.
  destruct (normalize_input_first_seen set_order defined) as [Hsym Hnorm].
  fold names in Hsym, Hnorm. fold symbols in Hsym.
  destruct (first_seen_from_members [] names (NoDup_nil_2 (A:=string))) as [Hnd Hmem].
  simpl in Hnd, Hmem. fold (first_seen names) in Hnd, Hmem.
  assert (symbols ≡ₚ first_seen names) as Hp by (rewrite Hsym; apply Hperm).
  assert (NoDup symbols) as Hnodup by (by rewrite Hp).
  destruct (run_symbols evs (__init__ symbols)) as (added & Heq & Hfrom & Hrun).
  split_and!; try done.
  - intros x. rewrite Hp, Hmem, elem_of_nil. tauto.
  - by exists added.
  - by apply Hrun.
  - intros ev. destruct (step_symbols ev c) as [?|(x & ? & _ & ?)]; [by left|].
    right. by exists x.
Qed.

(** *** Building a QuoteRecord *)

Lemma numeric_loop o keys (data : gmap string jvalue) :
  for_each (λ (value : string * bool) (data : gmap string jvalue),
      v ← py_get (JObj o) value.1 (JNum 0); Return (<[value.1 := v]> data))
    keys data
  = Return (fill (JNum 0) o keys.*1 data).
Proof.
  revert data. induction keys as [|value keys IH]; intros data; [done|].
  simpl. apply IH.
Qed.

Lemma string_loop o keys (data : gmap string jvalue) :
  for_each (λ (key : string) (data : gmap string jvalue),
      v ← py_get (JObj o) key JNull; Return (<[key := v]> data))
    keys data
  = Return (fill JNull o keys data).
Proof.
  revert data. induction keys as [|key keys IH]; intros data; [done|].
  simpl. apply IH.
Qed.

Lemma parse_symbol_data_object o :
  parse_symbol_data (JObj o)
  = Return (fill JNull o STRING_DATA_KEYS
              (fill (JNum 0) o NUMERIC_DATA_KEYS.*1 ∅)).
Proof.
  unfold_parse. rewrite numeric_loop. simpl.
  apply string_loop.
Qed.

Lemma lookup_fill dflt o keys (data : gmap string jvalue) k :
  fill dflt o keys data !! k
  = if decide (k ∈ keys) then Some (default dflt (o !! k)) else data !! k.
Proof.
  revert data. induction keys as [|key keys IH]; intros data; simpl.
  - by destruct (decide (k ∈ [])) as [?%elem_of_nil|].
  - unfold fill in *. simpl. rewrite IH.
    destruct (decide (k ∈ keys)) as [Hin|Hin].
    + rewrite decide_True; [done|by right].
    + destruct (decide (k = key)) as [->|Hne].
      * rewrite decide_True by left. by rewrite lookup_insert_eq.
      * rewrite decide_False, lookup_insert_ne; [done|done|].
        by intros [?|?]%elem_of_cons.
Qed.

(** C4.  For every result-list element that is a JSON object, the
    QuoteRecord built from it holds, for every numeric field name of the
    schema, the element's value, or 0 when the element has no such field,
    and for every string field name the element's value, or [None] when
    the element has no such field.  A key of the element that the schema
    does not list is left out of the record.  (The numeric default applies
    to a field name that the schema lists as numeric only.) *)
Theorem parse_symbol_data_defaults (o : gmap string jvalue) :
  ∃ record, parse_symbol_data (JObj o) = Return record
    ∧ (∀ key, key ∈ NUMERIC_DATA_KEYS.*1 → key ∉ STRING_DATA_KEYS →
         record !! key = Some (default (JNum 0) (o !! key)))
    ∧ (∀ key, key ∈ STRING_DATA_KEYS →
         record !! key = Some (default JNull (o !! key)))
    ∧ (∀ key, key ∉ NUMERIC_DATA_KEYS.*1 → key ∉ STRING_DATA_KEYS →
         record !! key = None).
Proof.
  eexists. split; [apply parse_symbol_data_object|]. split_and!.
  - intros key Hnum Hstr. rewrite !lookup_fill.
    by rewrite decide_False, decide_True.
  - intros key Hstr. rewrite lookup_fill. by rewrite decide_True.
  - intros key Hnum Hstr. rewrite !lookup_fill.
    by rewrite !decide_False.
Qed.

(** *** The loop over the result list *)

Lemma update_loop_not_update_failed items (data0 : snapshot) d :
  for_each (λ (symbol_data : jvalue) (data : snapshot),
       symbol ← py_getitem symbol_data "symbol";
       record ← parse_symbol_data symbol_data;
       key ← py_hash symbol;
       let data := <[key := record]> data in
       _ ← py_getitem (JObj record) DATA_REGULAR_MARKET_PRICE;
       Return data) items data0 ≠ Raise (UpdateFailed d).
Proof.
  revert data0. induction items as [|symbol_data items IH]; intros data0; [done|].
  simpl. destruct symbol_data as [| | | | |o]; try done. simpl.
  destruct (o !! "symbol") as [symbol|]; [|done]. simpl.
  rewrite parse_symbol_data_object. simpl.
  destruct symbol; simpl; try done;
    (match goal with |- context [?r !! DATA_REGULAR_MARKET_PRICE] =>
       destruct (r !! DATA_REGULAR_MARKET_PRICE) end; [apply IH|done]).
Qed.

(** The validation of [_async_update], once the container and the result
    list are in place: the attempt is the loop over the result list. *)
Lemma async_update_validated o q items c :
  o !! "quoteResponse" = Some (JObj q) →
  default JNull (q !! "error") = JNull →
  q !! "result" = Some (JList items) →
  (_async_update (Return (JObj o)) c).1
  = for_each (λ (symbol_data : jvalue) (data : snapshot),
       symbol ← py_getitem symbol_data "symbol";
       record ← parse_symbol_data symbol_data;
       key ← py_hash symbol;
       let data := <[key := record]> data in
       _ ← py_getitem (JObj record) DATA_REGULAR_MARKET_PRICE;
       Return data) items ∅.
Proof.
  intros Hq Herr Hres. unfold_update. cbn [fst].
  simpl. rewrite Hq. simpl. rewrite Hres.
  destruct (q !! "error") as [error|]; simpl in *; [by subst error|done].
Qed.

(** *** Validation of the payload *)

Lemma violates_first_violation payload v :
  violates payload v → is_Some (first_violation payload).
Proof.
  unfold first_violation, result_violation.
  destruct v; simpl.
  - by intros ->.
  - intros ->. by destruct (is_None payload).
  - intros (q & -> & -> & Herr). destruct (is_None payload); [done|].
    by destruct error.
  - intros (q & -> & ->). destruct (is_None payload); [done|].
    by destruct (member q "error") as [[]|].
  - intros (q & -> & ->). destruct (is_None payload); [done|].
    by destruct (member q "error") as [[]|].
Qed.

Lemma first_violation_violates payload v :
  first_violation payload = Some v → violates payload v.
Proof.
  unfold first_violation, result_violation.
  destruct payload; simpl; try (by intros [= <-]).
  destruct (o !! "quoteResponse") as [q|] eqn:Hq; [|by intros [= <-]].
  destruct (member q "error") as [error|] eqn:Herr;
    [destruct (is_None error) eqn:Hnone|];
    try (destruct (member q "result") as [result|] eqn:Hres;
         [destruct result; try done|]);
    intros [= <-]; simpl; eauto.
  all: exists q; split_and!; [done|done|]; by intros ->.
Qed.

Lemma violation_raises payload c :
  is_Some (first_violation payload) →
  raised (_async_update (Return payload) c).1.
Proof. payload_cases payload; by intros [? [=]]. Qed.

Lemma update_failed_violation payload c d :
  (_async_update (Return payload) c).1 = Raise (UpdateFailed d) →
  ∃ v, first_violation payload = Some v ∧ d = diagnostic v.
Proof.
  payload_cases payload;
    try (by intros ?%update_loop_not_update_failed);
    intros [= <-]; eauto.
Qed.

Lemma violation_update_failed payload c v :
  object_shaped payload →
  first_violation payload = Some v →
  (_async_update (Return payload) c).1 = Raise (UpdateFailed (diagnostic v)).
Proof. payload_cases payload; by intros _ [= <-]. Qed.

(** *** The retry wrapper and the framework's bookkeeping *)

Lemma add_refresh_later_arms duration c :
  Timer (next_handle c) duration ∈ call_later (_add_refresh_later duration c)
  ∧ _refresh_remover (_add_refresh_later duration c) = Some (next_handle c).
Proof.
  unfold _add_refresh_later. destruct (_refresh_remover c); simpl;
    (split; [|done]); apply elem_of_app; right; left.
Qed.

(** C10.  Whatever exception the update raises, [_async_update_with_retry]
    arms the retry timer for the failure delay of 20 seconds and raises
    the same exception.  This covers the exceptions that are not
    [UpdateFailed]: when the first element of the result list has no
    ["symbol"] key the update raises [KeyError] for that key. *)
Theorem retry_reraises_any_exception (response : outcome jvalue)
    (c : coordinator) :
  (∀ e, (_async_update response c).1 = Raise e →
     ∃ c', _async_update_with_retry response c = (Raise e, c')
       ∧ c' = _add_refresh_later FAILURE_ASYNC_REQUEST_REFRESH
                (_async_update response c).2
       ∧ (∃ h, Timer h 20 ∈ call_later c' ∧ _refresh_remover c' = Some h))
  ∧ (∀ o q element items,
       response = Return (JObj o) →
       o !! "quoteResponse" = Some (JObj q) →
       default JNull (q !! "error") = JNull →
       q !! "result" = Some (JList (JObj element :: items)) →
       element !! "symbol" = None →
       (_async_update response c).1 = Raise (KeyError "symbol")).
Proof.
  split.
  - intros e He. eexists. split; [by apply async_update_with_retry_raises|].
    split; [done|]. eexists. apply add_refresh_later_arms.
  - intros o q element items -> Hq Herr Hres Hsym.
    rewrite (async_update_validated o q _ c Hq Herr Hres). simpl.
    by rewrite Hsym.
Qed.

(** C1.  When the update raises, whatever the failure (the fetch raised,
    the payload is absent or malformed, or the validation failed),
    [_async_update_with_retry] arms a one-shot timer for the failure delay
    of 20 seconds, raises the same exception to its caller and does not
    touch the Snapshot.  After the framework has handled the exception
    [last_update_success] is false, the Snapshot held before is still the
    one served, and on a coordinator reached by a run the retry timer is
    the only timer armed. *)
Theorem failed_refresh_arms_retry (symbols : list string) (evs : list event)
    (response : outcome jvalue) (e : exn) :
  let c := run evs (__init__ symbols) in
  (_async_update response c).1 = Raise e →
  let attempt := _async_update_with_retry response c in
  let c' := async_refresh response c in
  attempt.1 = Raise e
  ∧ FAILURE_ASYNC_REQUEST_REFRESH = 20%Z
  ∧ (∃ h, call_later attempt.2 = [Timer h FAILURE_ASYNC_REQUEST_REFRESH]
        ∧ _refresh_remover attempt.2 = Some h)
  ∧ data attempt.2 = data c
  ∧ data c' = data c
  ∧ last_update_success c' = false
  ∧ call_later c' = call_later attempt.2
  ∧ _refresh_remover c' = _refresh_remover attempt.2.
Proof.
  intros c He attempt c'. subst attempt c'. unfold_refresh.
  rewrite (async_update_with_retry_raises _ _ _ He). cbn [fst snd].
  set (c1 := (_async_update response c).2).
  assert (timer_invariant c1) as Hinv.
  { apply timer_invariant_gets, run_invariant, init_invariant. }
  destruct (add_refresh_later_armed FAILURE_ASYNC_REQUEST_REFRESH c1 Hinv)
    as (Ht & Hrem & _).
  destruct (add_refresh_later_frame FAILURE_ASYNC_REQUEST_REFRESH c1)
    as (_ & Hd & _).
  split_and!; try done.
  by exists (next_handle c1).
Qed.

(** C2 (amended).  When the update returns, the Snapshot is replaced as a
    whole by the mapping the update built and [last_update_success] is
    set.  The success path does not touch the timer: a timer armed before
    the refresh is still armed after it, and the remover slot is
    unchanged. *)
Theorem successful_refresh_replaces_snapshot (response : outcome jvalue)
    (c : coordinator) (d : snapshot) :
  (_async_update response c).1 = Return d →
  let c' := async_refresh response c in
  data c' = Some d
  ∧ last_update_success c' = true
  ∧ call_later c' = call_later c
  ∧ _refresh_remover c' = _refresh_remover c
  ∧ get_symbols c' = get_symbols c.
Proof.
  intros Hd c'. subst c'. unfold_refresh.
  by rewrite (async_update_with_retry_returns _ _ _ Hd).
Qed.

(** C5.  Provided [DATA_REGULAR_MARKET_PRICE] is ["regularMarketPrice"]
    and the schema lists it among the numeric fields, a refresh attempt on
    the payload
    [{"quoteResponse": {"error": null, "result": [{"symbol": "BABA",
    "regularMarketPrice": 232.73, "regularMarketChange": -5.66,
    "twoHundredDayAverageChangePercent": -0.1261}]}}]
    succeeds; afterwards the Snapshot maps ["BABA"] to a record whose
    ["regularMarketPrice"] is 232.73, and [last_update_success] is true. *)
Theorem baba_refresh (c : coordinator) :
  DATA_REGULAR_MARKET_PRICE = "regularMarketPrice" →
  "regularMarketPrice" ∈ NUMERIC_DATA_KEYS.*1 →
  let c' := async_refresh (Return Sample.well_formed) c in
  (∃ d record, (_async_update (Return Sample.well_formed) c).1 = Return d
     ∧ data c' = Some d
     ∧ d !! KStr "BABA" = Some record
     ∧ record !! "regularMarketPrice" = Some (JNum (23273 # 100)))
  ∧ last_update_success c' = true.
Proof.
  intros Hprice Hnum c'.
  set (record := fill JNull Sample.baba STRING_DATA_KEYS
                   (fill (JNum 0) Sample.baba NUMERIC_DATA_KEYS.*1 ∅)).
  assert (record !! "regularMarketPrice" = Some (JNum (23273 # 100))) as Hrec.
  { subst record. rewrite !lookup_fill.
    destruct (decide ("regularMarketPrice" ∈ STRING_DATA_KEYS)); [done|].
    by rewrite decide_True. }
  assert ((_async_update (Return Sample.well_formed) c).1
          = Return {[ KStr "BABA" := record ]}) as Hd.
  { unfold Sample.well_formed.
    rewrite (async_update_validated _
               {[ "error" := JNull; "result" := JList [JObj Sample.baba] ]}
               [JObj Sample.baba]); [|reflexivity..].
    simpl. rewrite parse_symbol_data_object. fold record. simpl.
    rewrite Hprice, Hrec. done. }
  subst c'. unfold_refresh.
  rewrite (async_update_with_retry_returns _ _ _ Hd). simpl.
  split; [|done]. exists {[ KStr "BABA" := record ]}, record.
  split_and!; [done|done| |done]. apply lookup_singleton_eq.
Qed.

End Properties.

(** * The theorems on the sample data *)

(** C1 on the rate-limited payload of the specification, first refresh of
    a coordinator tracking BABA. *)
Lemma failed_refresh_arms_retry_rate_limited :
  (Sample._async_update (Return Sample.rate_limited) (__init__ ["BABA"])).1
  = Raise (UpdateFailed (JStr "rate limited"))
  ∧ (Sample._async_update_with_retry (Return Sample.rate_limited)
       (__init__ ["BABA"])).1
    = Raise (UpdateFailed (JStr "rate limited"))
  ∧ (∃ h, call_later Sample.retry_pending = [Timer h 20])
  ∧ data Sample.retry_pending = None
  ∧ last_update_success Sample.retry_pending = false.
Proof.
  assert ((Sample._async_update (Return Sample.rate_limited) (__init__ ["BABA"])).1
          = Raise (UpdateFailed (JStr "rate limited"))) as He
    by (vm_compute; reflexivity).
  split; [exact He|].
  destruct (failed_refresh_arms_retry Sample.NUMERIC_DATA_KEYS
              Sample.STRING_DATA_KEYS Sample.DATA_REGULAR_MARKET_PRICE
              Sample.BASE ["BABA"] [] (Return Sample.rate_limited)
              (UpdateFailed (JStr "rate limited")) He)
    as (Hraise & _ & (h & Htimer & _) & _ & Hdata & Hok & Hsame & _).
  split; [exact Hraise|]. split; [|split; [exact Hdata|exact Hok]].
  exists h. exact (eq_trans Hsame Htimer).
Defined.

(** C2 as stated fails: a refresh that fails arms the retry timer for 20
    seconds; a refresh that succeeds before the timer fires, here on the
    well-formed payload, replaces the Snapshot and sets
    [last_update_success], and the retry timer is still armed. *)
Lemma successful_refresh_keeps_timer :
  call_later Sample.retry_pending = [Timer 0 20]
  ∧ (Sample._async_update (Return Sample.well_formed) Sample.retry_pending).1
    = Return Sample.baba_snapshot
  ∧ call_later
      (Sample._async_update_with_retry (Return Sample.well_formed)
         Sample.retry_pending).2
    = [Timer 0 20]
  ∧ last_update_success
      (Sample.async_refresh (Return Sample.well_formed) Sample.retry_pending)
    = true
  ∧ call_later
      (Sample.async_refresh (Return Sample.well_formed) Sample.retry_pending)
    = [Timer 0 20].
Proof. vm_compute. done. Qed.

(** C2 (amended) on the same refresh. *)
Lemma successful_refresh_replaces_snapshot_baba :
  (Sample._async_update (Return Sample.well_formed) Sample.retry_pending).1
  = Return Sample.baba_snapshot
  ∧ data (Sample.async_refresh (Return Sample.well_formed) Sample.retry_pending)
    = Some Sample.baba_snapshot
  ∧ last_update_success
      (Sample.async_refresh (Return Sample.well_formed) Sample.retry_pending)
    = true
  ∧ call_later
      (Sample.async_refresh (Return Sample.well_formed) Sample.retry_pending)
    = call_later Sample.retry_pending.
Proof.
  assert ((Sample._async_update (Return Sample.well_formed)
             Sample.retry_pending).1 = Return Sample.baba_snapshot) as Hd
    by (vm_compute; reflexivity).
  split; [exact Hd|].
  destruct (successful_refresh_replaces_snapshot Sample.NUMERIC_DATA_KEYS
              Sample.STRING_DATA_KEYS Sample.DATA_REGULAR_MARKET_PRICE
              Sample.BASE (Return Sample.well_formed) Sample.retry_pending
              Sample.baba_snapshot Hd)
    as (Hdata & Hok & Htimers & _).
  split; [exact Hdata|]. split; [exact Hok|exact Htimers].
Defined.

(** C3 as stated fails, in three ways.  The payload
    [{"quoteResponse": {"result": [{"shortName": "Alibaba"}]}}] has none
    of the five violations, and the refresh attempt fails, with the
    [KeyError] of the missing ["symbol"].  The payload [5] lacks the
    container, and the attempt fails with [TypeError], not with the
    diagnostic of the missing container.  And an embedded error whose
    value is the text ["No data received"] gives the diagnostic that an
    absent payload gives. *)
Lemma no_violation_yet_failure :
  first_violation Sample.no_symbol = None
  ∧ (Sample._async_update (Return Sample.no_symbol) (__init__ ["BABA"])).1
    = Raise (KeyError "symbol")
  ∧ first_violation (JNum 5) = Some MissingContainer
  ∧ (Sample._async_update (Return (JNum 5)) (__init__ ["BABA"])).1
    = Raise TypeError
  ∧ (Sample._async_update
       (Return (JObj {[ "quoteResponse" :=
                          JObj {[ "error" := JStr "No data received" ]} ]}))
       (__init__ ["BABA"])).1
    = Raise (UpdateFailed (JStr "No data received"))
  ∧ (Sample._async_update (Return JNull) (__init__ ["BABA"])).1
    = Raise (UpdateFailed (JStr "No data received")).
Proof. vm_compute. done. Qed.

(** C4 on the BABA element: a numeric field the element has, one it lacks,
    a string field it lacks, and a key outside the schema. *)
Lemma parse_symbol_data_defaults_baba :
  ∃ record, Sample.parse_symbol_data (JObj Sample.baba) = Return record
    ∧ record !! "regularMarketPrice" = Some (JNum (23273 # 100))
    ∧ record !! "regularMarketPreviousClose" = Some (JNum 0)
    ∧ record !! "currency" = Some JNull
    ∧ record !! "symbol" = None.
Proof.
  destruct (parse_symbol_data_defaults Sample.NUMERIC_DATA_KEYS
              Sample.STRING_DATA_KEYS Sample.baba)
    as (record & Hparse & Hnum & Hstr & Hother).
  exists record. split; [exact Hparse|]. split_and!.
  - apply (Hnum "regularMarketPrice"); by_decision.
  - apply (Hnum "regularMarketPreviousClose"); by_decision.
  - apply (Hstr "currency"); by_decision.
  - apply (Hother "symbol"); by_decision.
Defined.

(** C5 on the sample tables, first refresh of a coordinator tracking
    BABA. *)
Lemma baba_refresh_sample :
  Sample.DATA_REGULAR_MARKET_PRICE = "regularMarketPrice"
  ∧ "regularMarketPrice" ∈ Sample.NUMERIC_DATA_KEYS.*1
  ∧ (∃ d record,
       (Sample._async_update (Return Sample.well_formed) (__init__ ["BABA"])).1
       = Return d
       ∧ data (Sample.async_refresh (Return Sample.well_formed)
                 (__init__ ["BABA"])) = Some d
       ∧ d !! KStr "BABA" = Some record
       ∧ record !! "regularMarketPrice" = Some (JNum (23273 # 100)))
  ∧ last_update_success
      (Sample.async_refresh (Return Sample.well_formed) (__init__ ["BABA"]))
    = true.
Proof.
  assert ("regularMarketPrice" ∈ Sample.NUMERIC_DATA_KEYS.*1) as Hnum
    by by_decision.
  split; [reflexivity|]. split; [exact Hnum|].
  exact (baba_refresh Sample.NUMERIC_DATA_KEYS Sample.STRING_DATA_KEYS
           Sample.DATA_REGULAR_MARKET_PRICE Sample.BASE (__init__ ["BABA"])
           eq_refl Hnum).
Defined.

(** C6 as stated fails: with BABA tracked, [add_symbol] of the spelling
    ["baba"], whose upper-case form is ["BABA"], returns true and appends
    it as given. *)
Lemma add_symbol_other_case_is_new :
  BASIC_SYMBOL_SCHEMA "baba" = "BABA"
  ∧ (add_symbol "baba" (__init__ ["BABA"])).1 = true
  ∧ get_symbols (add_symbol "baba" (__init__ ["BABA"])).2 = ["BABA"; "baba"].
Proof. vm_compute. done. Qed.

(** C6 (amended) on a coordinator tracking BABA: the same spelling is
    refused, and BABA is tracked once. *)
Lemma add_symbol_keeps_spelling_baba :
  NoDup ["BABA"]
  ∧ add_symbol "BABA" (__init__ ["BABA"]) = (false, __init__ ["BABA"])
  ∧ NoDup (get_symbols (add_symbol "BABA" (__init__ ["BABA"])).2).
Proof.
  assert (NoDup ["BABA"]) as Hnodup by by_decision.
  split; [exact Hnodup|].
  destruct (add_symbol_keeps_spelling Sample.NUMERIC_DATA_KEYS
              Sample.STRING_DATA_KEYS Sample.DATA_REGULAR_MARKET_PRICE
              Sample.BASE ["BABA"] [] "BABA" Hnodup)
    as (Hpresent & _ & _ & Hafter & _).
  split; [|exact Hafter]. apply Hpresent. by_decision.
Defined.

(** C7 as stated fails: enumerating the set in the reverse of the order of
    insertion is one of the orders [list(symbols)] may take, and with it
    the symbols configured as A, B are tracked as B, A, not in first-seen
    order. *)
Lemma tracked_symbols_not_first_seen :
  (∀ s : list string, reverse s ≡ₚ s)
  ∧ (normalize_input reverse [Plain "A"; Plain "B"]).1 = ["B"; "A"]
  ∧ first_seen ["A"; "B"] = ["A"; "B"]
  ∧ (normalize_input reverse [Plain "A"; Plain "B"]).1 ≠ first_seen ["A"; "B"].
Proof. split; [apply reverse_Permutation|]. vm_compute. done. Qed.

(** C7 (amended) for that enumeration, with a duplicate in the
    configuration and a symbol added at runtime. *)
Lemma tracked_symbols_unique_sample :
  (∀ s : list string, reverse s ≡ₚ s)
  ∧ NoDup (normalize_input reverse [Plain "A"; Plain "B"; Plain "A"]).1
  ∧ NoDup (get_symbols
             (Sample.run [AddSymbol "C"]
                (__init__ (normalize_input reverse
                             [Plain "A"; Plain "B"; Plain "A"]).1))).
Proof.
  assert (∀ s : list string, reverse s ≡ₚ s) as Hperm
    by apply reverse_Permutation.
  split; [exact Hperm|].
  destruct (tracked_symbols_unique Sample.NUMERIC_DATA_KEYS
              Sample.STRING_DATA_KEYS Sample.DATA_REGULAR_MARKET_PRICE
              Sample.BASE reverse [Plain "A"; Plain "B"; Plain "A"]
              [AddSymbol "C"] Hperm)
    as (Hnodup & _ & _ & _ & _ & Hrun & _).
  split; [exact Hnodup|exact Hrun].
Defined.

(** C8 on a coordinator tracking BABA, to which a currency pair is
    added. *)
Lemma add_symbol_warm_up_sample :
  ("USDEUR=X" ∉ get_symbols (__init__ ["BABA"]))
  ∧ ∃ c', add_symbol "USDEUR=X" (__init__ ["BABA"]) = (true, c')
      ∧ get_symbols c' = ["BABA"; "USDEUR=X"]
      ∧ websession_gets c' = [].
Proof.
  assert ("USDEUR=X" ∉ get_symbols (__init__ ["BABA"])) as Hnew by by_decision.
  split; [exact Hnew|].
  destruct (add_symbol_warm_up Sample.NUMERIC_DATA_KEYS
              Sample.STRING_DATA_KEYS Sample.DATA_REGULAR_MARKET_PRICE
              Sample.BASE ["BABA"] [] "USDEUR=X" Hnew)
    as (c' & Hadd & Hsymbols & _ & _ & _ & Hgets & _).
  exists c'. split; [exact Hadd|]. split; [exact Hsymbols|exact Hgets].
Defined.

(** C10 on a payload whose only element has no ["symbol"] key. *)
Lemma retry_reraises_key_error :
  (Sample._async_update (Return Sample.no_symbol) (__init__ ["BABA"])).1
  = Raise (KeyError "symbol")
  ∧ ∃ c', Sample._async_update_with_retry (Return Sample.no_symbol)
            (__init__ ["BABA"]) = (Raise (KeyError "symbol"), c')
      ∧ ∃ h, Timer h 20 ∈ call_later c' ∧ _refresh_remover c' = Some h.
Proof.
  assert ((Sample._async_update (Return Sample.no_symbol) (__init__ ["BABA"])).1
          = Raise (KeyError "symbol")) as He by (vm_compute; reflexivity).
  split; [exact He|].
  destruct (retry_reraises_any_exception Sample.NUMERIC_DATA_KEYS
              Sample.STRING_DATA_KEYS Sample.DATA_REGULAR_MARKET_PRICE
              Sample.BASE (Return Sample.no_symbol) (__init__ ["BABA"]))
    as [Hany _].
  destruct (Hany _ He) as (c' & Hretry & _ & Htimer).
  exists c'. split; [exact Hretry|exact Htimer].
Defined.

(** * Further properties of the code *)

(** ** The scan interval *)

Ltac letter_cases a :=
  destruct a as [[] [] [] [] [] [] [] []]; vm_compute;
  (split; [intros H; try discriminate H; auto
          |intros [H|H]; by try discriminate H]).

Lemma lower_letter_n a :
  lower (String a "") = "n" ↔ String a "" = "n" ∨ String a "" = "N".
Proof. letter_cases a. Qed.

Lemma lower_letter_o a :
  lower (String a "") = "o" ↔ String a "" = "o" ∨ String a "" = "O".
Proof. letter_cases a. Qed.

Lemma lower_letter_e a :
  lower (String a "") = "e" ↔ String a "" = "e" ∨ String a "" = "E".
Proof. letter_cases a. Qed.

Lemma lower_none s : lower s = "none" ↔ s ∈ none_spellings.
Proof.
  split.
  - destruct s as [|a [|b [|c [|d [|? ?]]]]]; try discriminate.
    intros H.
    assert (lower (String a "") = "n" ∧ lower (String b "") = "o"
            ∧ lower (String c "") = "n" ∧ lower (String d "") = "e")
      as (Ha%lower_letter_n & Hb%lower_letter_o & Hc%lower_letter_n
          & Hd%lower_letter_e).
    { simpl in *. injection H as -> -> -> ->. done. }
    destruct Ha as [[= ->]|[= ->]], Hb as [[= ->]|[= ->]],
      Hc as [[= ->]|[= ->]], Hd as [[= ->]|[= ->]]; by_decision.
  - intros Hin. vm_compute in Hin.
    repeat (apply elem_of_cons in Hin as [->|Hin]; [reflexivity|]).
    by apply elem_of_nil in Hin.
Qed.

(** X1.  [parse_scan_interval] enforces the minimum: a [timedelta] of at
    least 30 seconds is returned unchanged, a shorter one raises
    [vol.Invalid], and whatever it returns is [None] or a [timedelta] of at
    least 30 seconds, never a str. *)
Theorem scan_interval_minimum (CONF_SCAN_INTERVAL : string) (d : Z) :
  ((MINIMUM_SCAN_INTERVAL ≤ d)%Z →
     parse_scan_interval CONF_SCAN_INTERVAL (ScanDelta d) = Done (ScanDelta d))
  ∧ ((d < MINIMUM_SCAN_INTERVAL)%Z →
     parse_scan_interval CONF_SCAN_INTERVAL (ScanDelta d)
     = Failed (Invalid "Scan interval should be at least 30 seconds."))
  ∧ MINIMUM_SCAN_INTERVAL = 30000000%Z
  ∧ (∀ v r, parse_scan_interval CONF_SCAN_INTERVAL v = Done r →
       r = ScanNone ∨ ∃ d', r = ScanDelta d' ∧ (seconds 30 ≤ d')%Z).
Proof.
  split_and!.
  - intros Hd. simpl. rewrite decide_False; [done|lia].
  - intros Hd. simpl. by rewrite decide_True.
  - reflexivity.
  - intros [s|d'|] r; simpl.
    + destruct (decide (lower s = "none")); intros [= <-]. by left.
    + destruct (decide (d' < MINIMUM_SCAN_INTERVAL)%Z) as [|Hge]; intros [= <-].
      right. exists d'. split; [done|]. unfold MINIMUM_SCAN_INTERVAL in Hge. lia.
    + done.
Qed.

(** X2.  A str is accepted exactly when it is one of the sixteen spellings
    of ["none"], in any mix of cases; the result is then [None], which
    turns polling off.  Every other str raises [vol.Invalid] with a message
    that quotes it. *)
Theorem scan_interval_none_spellings (CONF_SCAN_INTERVAL : string)
    (s : string) :
  (s ∈ none_spellings →
     parse_scan_interval CONF_SCAN_INTERVAL (ScanStr s) = Done ScanNone)
  ∧ (s ∉ none_spellings →
     parse_scan_interval CONF_SCAN_INTERVAL (ScanStr s)
     = Failed (Invalid ("Invalid " ++ CONF_SCAN_INTERVAL
                        ++ " specified: " ++ s)%string))
  ∧ List.length none_spellings = 16.
Proof.
  split_and!.
  - intros Hs%lower_none. simpl. by rewrite decide_True.
  - intros Hs. simpl. rewrite decide_False; [done|]. by rewrite lower_none.
  - reflexivity.
Qed.

(** X3.  [parse_scan_interval] cannot be applied to its own result when
    that result is [None]: [None] is not a str and comparing it with the
    minimum raises [TypeError], as does a configuration without the key.
    A returned [timedelta] parses to itself. *)
Theorem scan_interval_reparse (CONF_SCAN_INTERVAL : string)
    (v r : scan_interval_value) :
  parse_scan_interval CONF_SCAN_INTERVAL v = Done r →
  parse_scan_interval CONF_SCAN_INTERVAL r
  = match r with
    | ScanNone => Failed SetupTypeError
    | _ => Done r
    end.
Proof.
  destruct v as [s|d|]; simpl.
  - destruct (decide (lower s = "none")); by intros [= <-].
  - destruct (decide (d < MINIMUM_SCAN_INTERVAL)%Z) as [|Hge] eqn:Hd;
      intros [= <-]. simpl. by rewrite Hd.
  - done.
Qed.

(** ** The normalized definitions *)

Lemma normalize_loop_first_definitions defined symbols normalized :
  normalize_loop defined symbols normalized
  = (symbols ++ (symbol_of <$> first_definitions symbols defined),
     normalized ++ (as_dict <$> first_definitions symbols defined)).
Proof.
  revert symbols normalized.
  induction defined as [|value rest IH]; intros symbols normalized.
  - simpl. by rewrite !app_nil_r.
  - destruct value as [symbol|symbol target]; simpl;
      (destruct (decide (symbol ∉ symbols)) as [Hnew|Hold];
       [ destruct (decide (symbol ∈ symbols)); [done|]
       | destruct (decide (symbol ∈ symbols)); [|done] ]);
      rewrite IH; try done; by rewrite <- !(assoc_L (++)).
Qed.

Lemma first_definitions_elem seen l v :
  v ∈ first_definitions seen l ↔
  ∃ pre post, l = pre ++ v :: post
    ∧ (symbol_of v ∉ seen) ∧ (symbol_of v ∉ symbol_of <$> pre).
Proof.
  revert seen. induction l as [|w l IH]; intros seen; simpl.
  - split; [by intros ?%elem_of_nil|]. by intros ([|??] & ? & ? & _).
  - destruct (decide (symbol_of w ∈ seen)) as [Hw|Hw].
    + rewrite IH. split.
      * intros (pre & post & -> & Hs & Hp). exists (w :: pre), post.
        split_and!; [done|done|]. rewrite fmap_cons, not_elem_of_cons.
        split; [|done]. intros Heq. apply Hs. by rewrite Heq.
      * intros ([|w' pre] & post & Hl & Hs & Hp); simplify_eq/=; [done|].
        apply not_elem_of_cons in Hp as [_ Hp]. by exists pre, post.
    + rewrite elem_of_cons, IH. split.
      * intros [->|(pre & post & -> & Hs & Hp)].
        -- exists [], l. split_and!; [done|done|]. by intros ?%elem_of_nil.
        -- exists (w :: pre), post. rewrite not_elem_of_app in Hs.
           destruct Hs as [Hs Hne]. split_and!; [done|done|].
           rewrite fmap_cons, not_elem_of_cons. split; [|done].
           intros Heq. apply Hne. rewrite Heq. left.
      * intros ([|w' pre] & post & Hl & Hs & Hp); simplify_eq/=; [by left|].
        right. apply not_elem_of_cons in Hp as [Hne Hp]. exists pre, post.
        split_and!; [done| |done]. rewrite not_elem_of_app. split; [done|].
        by intros ?%list_elem_of_singleton.
Qed.

Lemma first_definitions_fresh seen l :
  NoDup (symbol_of <$> l) →
  (∀ x, x ∈ symbol_of <$> l → x ∉ seen) →
  first_definitions seen l = l.
Proof.
  revert seen. induction l as [|w l IH]; intros seen Hnd Hfresh; [done|].
  simpl. rewrite fmap_cons in Hnd, Hfresh. apply NoDup_cons in Hnd as [Hw Hnd].
  rewrite decide_False by (apply Hfresh; left). f_equal.
  apply IH; [done|]. intros x Hx. rewrite not_elem_of_app. split.
  - apply Hfresh. by right.
  - intros ->%list_elem_of_singleton. done.
Qed.

Lemma first_definitions_symbols seen l :
  symbol_of <$> first_definitions seen l
  = first_seen_from seen (symbol_of <$> l).
Proof.
  revert seen. induction l as [|w l IH]; intros seen; [done|].
  simpl. destruct (decide (symbol_of w ∈ seen)); [apply IH|].
  rewrite fmap_cons. f_equal. apply IH.
Qed.

Lemma symbol_of_as_dict v : symbol_of (as_dict v) = symbol_of v.
Proof. by destruct v. Qed.

Lemma as_dict_as_dict v : as_dict (as_dict v) = as_dict v.
Proof. by destruct v. Qed.

(** X4.  When a symbol is configured more than once, the first definition
    is the one kept, with the target currency it gives, and a plain str is
    kept as a dict without target currency; the later definitions, whatever
    their target currency, are dropped. *)
Theorem normalize_input_first_wins (set_order : list string → list string)
    (defined : list symbol_definition) (entry : symbol_definition) :
  entry ∈ (normalize_input set_order defined).2 ↔
  ∃ pre value post, defined = pre ++ value :: post
    ∧ (symbol_of value ∉ symbol_of <$> pre)
    ∧ entry = as_dict value.
Proof.
  unfold normalize_input. rewrite normalize_loop_first_definitions. simpl.
  rewrite list_elem_of_fmap. split.
  - intros (value & -> & (pre & post & -> & _ & Hpre)%first_definitions_elem).
    by exists pre, value, post.
  - intros (pre & value & post & -> & Hpre & ->). exists value. split; [done|].
    apply first_definitions_elem. exists pre, post.
    split_and!; [done|by intros ?%elem_of_nil|done].
Qed.

(** X5.  [normalize_input] is idempotent on the definitions: normalizing
    the normalized definitions returns them unchanged, with the same
    tracked symbols. *)
Theorem normalize_input_idempotent (set_order : list string → list string)
    (defined : list symbol_definition) :
  normalize_input set_order (normalize_input set_order defined).2
  = normalize_input set_order defined.
Proof.
  unfold normalize_input. rewrite !normalize_loop_first_definitions. simpl.
  set (kept := first_definitions [] defined).
  assert (symbol_of <$> (as_dict <$> kept) = symbol_of <$> kept) as Hsym.
  { rewrite <- list_fmap_compose. apply list_fmap_ext. intros _ v _.
    apply symbol_of_as_dict. }
  assert (NoDup (symbol_of <$> kept)) as Hnd.
  { subst kept. rewrite first_definitions_symbols.
    by destruct (first_seen_from_members [] (symbol_of <$> defined)
                   (NoDup_nil_2 (A:=string))). }
  rewrite first_definitions_fresh.
  - rewrite Hsym. f_equal. rewrite <- list_fmap_compose.
    apply list_fmap_ext. intros _ v _. apply as_dict_as_dict.
  - by rewrite Hsym.
  - by intros x _ ?%elem_of_nil.
Qed.

(** ** The schema and the tracked symbols *)

Lemma upper_ascii_idempotent a : upper_ascii (upper_ascii a) = upper_ascii a.
Proof. destruct a as [[] [] [] [] [] [] [] []]; reflexivity. Qed.

Lemma upper_idempotent s : upper (upper s) = upper s.
Proof.
  induction s as [|a s IH]; [done|]. simpl.
  by rewrite upper_ascii_idempotent, IH.
Qed.

Lemma symbol_of_schema v :
  symbol_of (symbol_schema v) = upper (symbol_of v).
Proof. by destruct v. Qed.

(** X6.  The symbols of a configuration that went through the schema are
    tracked in upper case and no two of them differ only by case: for
    symbols written in ASCII, every tracked symbol is its own upper-case
    form and the upper-case forms are pairwise distinct. *)
Theorem configured_symbols_case_unique (set_order : list string → list string)
    (defined : list symbol_definition) :
  (∀ s, set_order s ≡ₚ s) →
  Forall (λ value, ascii_only (symbol_of value)) defined →
  let tracked := (normalize_input set_order (symbol_schema <$> defined)).1 in
  (∀ x, x ∈ tracked → upper x = x)
  ∧ NoDup (upper <$> tracked)
  ∧ (∀ value, value ∈ defined → upper (symbol_of value) ∈ tracked).
Proof.
  intros Hperm _ tracked.
  destruct (normalize_input_first_seen set_order (symbol_schema <$> defined))
    as [Htracked _]. fold tracked in Htracked.
  set (names := symbol_of <$> (symbol_schema <$> defined)) in Htracked.
  destruct (first_seen_from_members [] names (NoDup_nil_2 (A:=string)))
    as [Hnd Hmem]. simpl in Hnd, Hmem. fold (first_seen names) in Hnd, Hmem.
  assert (tracked ≡ₚ first_seen names) as Hp by (rewrite Htracked; apply Hperm).
  assert (∀ x, x ∈ tracked ↔ ∃ value, value ∈ defined ∧ x = upper (symbol_of value))
    as Hin.
  { intros x. rewrite Hp, Hmem, elem_of_nil. subst names.
    rewrite <- list_fmap_compose, list_elem_of_fmap. split.
    - intros [[]|(value & -> & Hv)]. exists value. split; [done|].
      simpl. apply symbol_of_schema.
    - intros (value & Hv & ->). right. exists value. split; [|done].
      simpl. by rewrite symbol_of_schema. }
  assert (∀ x, x ∈ tracked → upper x = x) as Hup.
  { intros x (value & _ & ->)%Hin. apply upper_idempotent. }
  split_and!; [done| |].
  - replace (upper <$> tracked) with tracked; [by rewrite Hp|].
    rewrite <- (list_fmap_id tracked) at 1. apply list_fmap_ext.
    intros i x Hx. symmetry. apply Hup. by eapply list_elem_of_lookup_2.
  - intros value Hv. apply Hin. by exists value.
Qed.

Section FurtherProperties.

Variable NUMERIC_DATA_KEYS : list (string * bool).
Variable STRING_DATA_KEYS : list string.
Variable DATA_REGULAR_MARKET_PRICE : string.
Variable BASE : string.

Local Abbreviation _async_update :=
  (_async_update NUMERIC_DATA_KEYS STRING_DATA_KEYS DATA_REGULAR_MARKET_PRICE BASE).
Local Abbreviation _async_update_with_retry :=
  (_async_update_with_retry NUMERIC_DATA_KEYS STRING_DATA_KEYS
     DATA_REGULAR_MARKET_PRICE BASE).
Local Abbreviation async_refresh :=
  (async_refresh NUMERIC_DATA_KEYS STRING_DATA_KEYS DATA_REGULAR_MARKET_PRICE BASE).
Local Abbreviation step :=
  (step NUMERIC_DATA_KEYS STRING_DATA_KEYS DATA_REGULAR_MARKET_PRICE BASE).
Local Abbreviation run :=
  (run NUMERIC_DATA_KEYS STRING_DATA_KEYS DATA_REGULAR_MARKET_PRICE BASE).
Local Abbreviation parse_symbol_data :=
  (parse_symbol_data NUMERIC_DATA_KEYS STRING_DATA_KEYS).

(** The loop of [_async_update] over the result list, and the record that
    [parse_symbol_data] builds from a dict. *)
Local Abbreviation update_loop :=
  (for_each (λ (symbol_data : jvalue) (data : snapshot),
       symbol ← py_getitem symbol_data "symbol";
       record ← parse_symbol_data symbol_data;
       key ← py_hash symbol;
       let data := <[key := record]> data in
       _ ← py_getitem (JObj record) DATA_REGULAR_MARKET_PRICE;
       Return data)).
Local Abbreviation record_of o :=
  (fill JNull o STRING_DATA_KEYS (fill (JNum 0) o NUMERIC_DATA_KEYS.*1 ∅)).
Local Abbreviation price_listed :=
  (DATA_REGULAR_MARKET_PRICE ∈ NUMERIC_DATA_KEYS.*1
   ∨ DATA_REGULAR_MARKET_PRICE ∈ STRING_DATA_KEYS).

(** ** The loop over the result list *)

Lemma result_list_validated payload items c :
  result_list payload = Some items →
  (_async_update (Return payload) c).1 = update_loop items ∅.
Proof.
  unfold result_list, member. destruct payload as [| | | | |o]; try done.
  destruct (o !! "quoteResponse") as [[| | | | |q]|] eqn:Hq; try done.
  destruct (default JNull (q !! "error")) eqn:Herr; try done.
  destruct (q !! "result") as [[| | | |l|]|] eqn:Hres; try done.
  intros [= ->]. by apply async_update_validated with q.
Qed.

Lemma for_each_app {A S} (body : A → S → outcome S) l1 l2 s :
  for_each body (l1 ++ l2) s = s' ← for_each body l1 s; for_each body l2 s'.
Proof.
  revert s. induction l1 as [|x l1 IH]; intros s; [done|].
  simpl. destruct (body x s); [apply IH|done].
Qed.

Lemma price_listed_lookup o :
  is_Some (record_of o !! DATA_REGULAR_MARKET_PRICE) ↔ price_listed.
Proof.
  rewrite !lookup_fill.
  destruct (decide (DATA_REGULAR_MARKET_PRICE ∈ STRING_DATA_KEYS)) as [?|Hs].
  - split; [by right|by eexists].
  - destruct (decide (DATA_REGULAR_MARKET_PRICE ∈ NUMERIC_DATA_KEYS.*1)) as [?|Hn].
    + split; [by left|by eexists].
    + rewrite lookup_empty. split; [by intros [? [=]]|by intros [?|?]].
Qed.

(** One pass of the loop body: what it returns when it returns. *)
Lemma update_body_returns x (data d : snapshot) :
  update_loop [x] data = Return d ↔
  price_listed ∧ ∃ o key, x = JObj o ∧ element_key x = Some key
    ∧ d = <[key := record_of o]> data.
Proof.
  simpl. destruct x as [| | | | |o]; simpl;
    try (split; [done|by intros (_ & ? & ? & [=] & _)]).
  destruct (o !! "symbol") as [symbol|] eqn:Hsym; simpl;
    [|split; [done|by intros (_ & ? & ? & _ & [=] & _)]].
  rewrite parse_symbol_data_object. simpl.
  destruct (py_hash symbol) as [key|e] eqn:Hkey; simpl;
    [|split; [done|by intros (_ & ? & ? & _ & [=] & _)]].
  pose proof (price_listed_lookup o) as Hprice.
  destruct (record_of o !! DATA_REGULAR_MARKET_PRICE) as [v|]; simpl.
  - split.
    + intros [= <-]. split; [apply Hprice; by eexists|]. by exists o, key.
    + intros (_ & o' & key' & [= <-] & [= <-] & ->). done.
  - split; [done|]. intros (Hlisted%Hprice & _). by destruct Hlisted.
Qed.

Lemma update_body_raises x (data : snapshot) :
  element_key x = None → raised (update_loop [x] data).
Proof.
  simpl. destruct x as [| | | | |o]; simpl; try done.
  destruct (o !! "symbol") as [symbol|]; simpl; [|done].
  rewrite parse_symbol_data_object. simpl.
  by destruct (py_hash symbol).
Qed.

Lemma update_loop_cons x items (data : snapshot) :
  update_loop (x :: items) data
  = d ← update_loop [x] data; update_loop items d.
Proof. apply (for_each_app _ [x] items). Qed.

Lemma update_loop_returns items (data d : snapshot) :
  update_loop items data = Return d →
  Forall (λ x, is_Some (element_key x)) items
  ∧ (items ≠ [] → price_listed)
  ∧ (∀ key, is_Some (d !! key) ↔
       is_Some (data !! key) ∨ ∃ x, x ∈ items ∧ element_key x = Some key)
  ∧ (∀ key, (∀ x, x ∈ items → element_key x ≠ Some key) →
       d !! key = data !! key).
Proof.
  revert data. induction items as [|x items IH]; intros data.
  - intros [= <-]. split_and!; [done|done| |done].
    intros key. split; [by left|]. intros [?|(x & ?%elem_of_nil & _)]; done.
  - rewrite update_loop_cons.
    destruct (update_loop [x] data) as [d1|e] eqn:Hx; [|done]. simpl.
    apply update_body_returns in Hx as (Hprice & o & k & -> & Hk & ->).
    intros (Hall & _ & Hdom & Hkeep)%IH. split_and!.
    + constructor; [by rewrite Hk|done].
    + done.
    + intros key. rewrite Hdom. rewrite lookup_insert.
      destruct (decide (k = key)) as [->|Hne].
      * split; [|by left; eexists]. intros _. right. exists (JObj o).
        split; [left|done].
      * split.
        -- intros [?|(x & Hx & Hxk)]; [by left|]. right. exists x.
           split; [by right|done].
        -- intros [?|(x & [->|Hx]%elem_of_cons & Hxk)]; [by left| |].
           ++ congruence.
           ++ right. by exists x.
    + intros key Hnone. rewrite Hkeep.
      * rewrite lookup_insert_ne; [done|]. intros <-.
        by apply (Hnone (JObj o)); [left|].
      * intros x Hx. apply Hnone. by right.
Qed.

Lemma update_loop_keyed items (data : snapshot) :
  price_listed →
  Forall (λ x, is_Some (element_key x)) items →
  ∃ d, update_loop items data = Return d.
Proof.
  intros Hprice Hall. revert data.
  induction Hall as [|x items [k Hk] _ IH]; intros data; [by eexists|].
  rewrite update_loop_cons.
  destruct x as [| | | | |o]; try done.
  assert (update_loop [JObj o] data = Return (<[k := record_of o]> data)) as ->.
  { apply update_body_returns. split; [done|]. by exists o, k. }
  simpl. apply IH.
Qed.

Lemma update_loop_unkeyed items (data : snapshot) :
  Exists (λ x, element_key x = None) items → raised (update_loop items data).
Proof.
  intros Hex. revert data.
  induction Hex as [x items Hx|x items _ IH]; intros data;
    rewrite update_loop_cons.
  - pose proof (update_body_raises x data Hx) as Hr.
    by destruct (update_loop [x] data).
  - destruct (update_loop [x] data); [apply IH|done].
Qed.

Lemma wire_shaped_result_list payload :
  wire_shaped payload →
  first_violation payload = None →
  ∃ items, result_list payload = Some items
    ∧ Forall (λ x, is_Some (element_key x)) items.
Proof.
  unfold wire_shaped, first_violation, result_violation, result_list, member.
  destruct payload as [| | | | |o]; try done. simpl.
  destruct (o !! "quoteResponse") as [[| | | | |q]|]; try done.
  destruct (q !! "error") as [[]|]; simpl; try done;
    (destruct (q !! "result") as [[| | | |items|]|]; simpl; try done;
     intros Hall _; by exists items).
Qed.

(** C3 (amended).  Let the price field be listed in the schema and let the
    payload have the shape it has on the wire: absent, or an object whose
    [quoteResponse], when present, is an object whose [result], when
    present and not null, is a list of objects that each carry a hashable
    [symbol].  Then the refresh attempt fails if and only if the payload
    is absent, lacks the [quoteResponse] container, carries a non-null
    embedded error, lacks a [result] key or has a null result list, and
    otherwise it returns a Snapshot; the failure is [UpdateFailed] with the
    diagnostic of the first violated check.  The four fixed diagnostics
    are pairwise distinct and the diagnostic of an embedded error is the
    error value of the payload.  For every payload, whatever its shape,
    each of the five violations makes the attempt fail, and an attempt that
    fails with [UpdateFailed] has one of them and carries the diagnostic of
    the first one. *)
Theorem update_failed_diagnostics (payload : jvalue) (c : coordinator) :
  let attempt := (_async_update (Return payload) c).1 in
  (∀ v, violates payload v → raised attempt)
  ∧ (∀ d, attempt = Raise (UpdateFailed d) →
       ∃ v, violates payload v ∧ first_violation payload = Some v
         ∧ d = diagnostic v)
  ∧ (object_shaped payload → ∀ v, first_violation payload = Some v →
       attempt = Raise (UpdateFailed (diagnostic v)))
  ∧ (DATA_REGULAR_MARKET_PRICE ∈ NUMERIC_DATA_KEYS.*1
     ∨ DATA_REGULAR_MARKET_PRICE ∈ STRING_DATA_KEYS →
     wire_shaped payload →
     (raised attempt ↔ ∃ v, violates payload v)
     ∧ ((∀ v, ¬ violates payload v) → ∃ d, attempt = Return d)
     ∧ (∀ v, first_violation payload = Some v →
          attempt = Raise (UpdateFailed (diagnostic v))))
  ∧ NoDup [diagnostic NoData; diagnostic MissingContainer;
           diagnostic MissingResultList; diagnostic NullResultList]
  ∧ (∀ error, diagnostic (EmbeddedError error) = error).
Proof.
  intros attempt.
  assert (∀ v, violates payload v → raised attempt) as Hfails.
  { intros v Hv. by eapply violation_raises, violates_first_violation. }
  split_and!.
  - done.
  - intros d (v & Hv & ->)%update_failed_violation.
    exists v. split_and!; [by apply first_violation_violates|done|done].
  - intros Hshape v. by apply violation_update_failed.
  - intros Hprice Hwire.
    assert (first_violation payload = None → ∃ d, attempt = Return d)
      as Hreturns.
    { intros Hnone.
      destruct (wire_shaped_result_list payload Hwire Hnone)
        as (items & Hitems & Hkeyed).
      subst attempt. rewrite (result_list_validated _ _ c Hitems).
      by apply update_loop_keyed. }
    split_and!.
    + split; [|by intros [v Hv]; apply (Hfails v)].
      intros Hraised.
      destruct (first_violation payload) as [v|] eqn:Hfirst.
      * exists v. by apply first_violation_violates.
      * destruct (Hreturns eq_refl) as [d Hd]. by rewrite Hd in Hraised.
    + intros Hnone. apply Hreturns.
      destruct (first_violation payload) as [v|] eqn:Hfirst; [|done].
      by destruct (Hnone v (first_violation_violates _ _ Hfirst)).
    + intros v. apply violation_update_failed.
      destruct payload as [| | | | |o]; try done. simpl in *.
      by destruct (o !! "quoteResponse") as [[]|].
  - repeat (apply NoDup_cons; split;
      [rewrite ?elem_of_cons, elem_of_nil; simpl; intros H;
       repeat (destruct H as [H|H]; [discriminate H|]); done|]).
    apply NoDup_nil_2.
  - done.
Qed.

(** X7.  With the price field listed in the schema, a payload that passes
    the checks on its shape is accepted exactly when every element of the
    result list is a dict with a hashable ["symbol"]: one element without
    it fails the whole attempt, whatever the other elements hold. *)
Theorem update_succeeds_iff_keyed (payload : jvalue) (items : list jvalue)
    (c : coordinator) :
  DATA_REGULAR_MARKET_PRICE ∈ NUMERIC_DATA_KEYS.*1
  ∨ DATA_REGULAR_MARKET_PRICE ∈ STRING_DATA_KEYS →
  result_list payload = Some items →
  ((∃ d, (_async_update (Return payload) c).1 = Return d)
   ↔ Forall (λ x, is_Some (element_key x)) items)
  ∧ (Exists (λ x, element_key x = None) items →
     raised (_async_update (Return payload) c).1).
Proof.
  intros Hprice Hitems. rewrite (result_list_validated _ _ c Hitems).
  split; [split|].
  - intros [d Hd]. by apply update_loop_returns in Hd as [? _].
  - by apply update_loop_keyed.
  - apply update_loop_unkeyed.
Qed.

(** X8.  After a refresh that succeeds, the Snapshot holds a record under
    exactly the symbols of the elements of the payload's result list.  A
    symbol that no element carries has no record, whether it is tracked or
    had a record in the Snapshot held before; an empty result list gives an
    empty Snapshot. *)
Theorem snapshot_holds_payload_symbols (payload : jvalue)
    (items : list jvalue) (c : coordinator) (d : snapshot) :
  result_list payload = Some items →
  (_async_update (Return payload) c).1 = Return d →
  data (async_refresh (Return payload) c) = Some d
  ∧ (∀ key, is_Some (d !! key) ↔ ∃ x, x ∈ items ∧ element_key x = Some key)
  ∧ (items = [] → d = ∅).
Proof.
  intros Hitems Hd. split_and!.
  - unfold_refresh. by rewrite (async_update_with_retry_returns _ _ _ _ _ _ _ Hd).
  - rewrite (result_list_validated _ _ c Hitems) in Hd.
    apply update_loop_returns in Hd as (_ & _ & Hdom & _).
    intros key. rewrite Hdom, lookup_empty. split.
    + by intros [[? [=]]|?].
    + by right.
  - intros ->. rewrite (result_list_validated _ _ c Hitems) in Hd.
    by injection Hd.
Qed.

(** X9.  When several elements of the result list carry the same symbol,
    the record kept for it is the one built from the last of them. *)
Theorem last_element_wins (payload : jvalue) (pre post : list jvalue)
    (o : gmap string jvalue) (key : pykey) (c : coordinator) (d : snapshot) :
  result_list payload = Some (pre ++ JObj o :: post) →
  element_key (JObj o) = Some key →
  (∀ x, x ∈ post → element_key x ≠ Some key) →
  (_async_update (Return payload) c).1 = Return d →
  ∃ record, parse_symbol_data (JObj o) = Return record
    ∧ d !! key = Some record.
Proof.
  intros Hitems Hkey Hpost Hd. exists (record_of o).
  split; [apply parse_symbol_data_object|].
  rewrite (result_list_validated _ _ c Hitems), for_each_app in Hd.
  destruct (update_loop pre ∅) as [d1|e]; [|done].
  change (update_loop (JObj o :: post) d1 = Return d) in Hd.
  rewrite update_loop_cons in Hd.
  destruct (update_loop [JObj o] d1) as [d2|e] eqn:Ho; [|done].
  change (update_loop post d2 = Return d) in Hd.
  apply update_body_returns in Ho as (_ & o' & k & [= <-] & Hk & ->).
  apply update_loop_returns in Hd as (_ & _ & _ & Hkeep).
  rewrite (Hkeep key Hpost). assert (k = key) as -> by congruence.
  apply lookup_insert_eq.
Qed.

(** X10.  The update reads [data[symbol][DATA_REGULAR_MARKET_PRICE]] for
    its debug log.  When the schema lists that field in neither table, a
    payload whose result list starts with a well-formed element fails with
    the [KeyError] of that field, and only a payload with an empty result
    list is accepted. *)
Theorem price_field_must_be_listed (payload : jvalue) (items : list jvalue)
    (c : coordinator) :
  DATA_REGULAR_MARKET_PRICE ∉ NUMERIC_DATA_KEYS.*1 →
  DATA_REGULAR_MARKET_PRICE ∉ STRING_DATA_KEYS →
  result_list payload = Some items →
  (∀ x rest, items = x :: rest → is_Some (element_key x) →
     (_async_update (Return payload) c).1
     = Raise (KeyError DATA_REGULAR_MARKET_PRICE))
  ∧ ((∃ d, (_async_update (Return payload) c).1 = Return d) ↔ items = []).
Proof.
  intros Hnum Hstr Hitems. rewrite (result_list_validated _ _ c Hitems).
  assert (¬ price_listed) as Hprice by (by intros [?|?]).
  split.
  - intros x rest -> [key Hkey]. rewrite update_loop_cons.
    destruct x as [| | | | |o]; try done. simpl in Hkey |- *.
    destruct (o !! "symbol") as [symbol|]; [|done]. simpl.
    rewrite parse_symbol_data_object. simpl.
    destruct (py_hash symbol); [|done]. simpl.
    pose proof (price_listed_lookup o) as Hlookup.
    destruct (record_of o !! DATA_REGULAR_MARKET_PRICE); [|done].
    exfalso. apply Hprice, Hlookup. by eexists.
  - split.
    + intros [d Hd]. apply update_loop_returns in Hd as (_ & Hne & _).
      destruct items; [done|]. exfalso. by apply Hprice, Hne.
    + intros ->. by eexists.
Qed.

(** ** Requests, timers and the remover slot along a run *)

Lemma run_cons ev evs c : run (ev :: evs) c = run evs (step ev c).
Proof. reflexivity. Qed.

Lemma run_app evs1 evs2 c : run (evs1 ++ evs2) c = run evs2 (run evs1 c).
Proof. unfold_run. apply foldl_app. Qed.

Lemma async_refresh_gets response c :
  websession_gets (async_refresh response c)
  = websession_gets c ++ [(BASE ++ String.concat "," (_symbols c))%string]
  ∧ refresh_requests (async_refresh response c) = refresh_requests c.
Proof.
  unfold_refresh.
  destruct (_async_update response c).1 as [d|e] eqn:Hr.
  - by rewrite (async_update_with_retry_returns _ _ _ _ _ _ _ Hr).
  - rewrite (async_update_with_retry_raises _ _ _ _ _ _ _ Hr).
    cbv beta iota. unfold set_data. cbn [websession_gets refresh_requests].
    destruct (add_refresh_later_frame FAILURE_ASYNC_REQUEST_REFRESH
                (_async_update response c).2) as (_ & _ & _ & -> & ->).
    done.
Qed.

Lemma add_symbol_gets symbol c :
  websession_gets (add_symbol symbol c).2 = websession_gets c
  ∧ refresh_requests (add_symbol symbol c).2 = refresh_requests c.
Proof.
  unfold add_symbol. destruct (decide (symbol ∉ _symbols c)); [|done].
  cbn [snd].
  by destruct (add_refresh_later_frame DELAY_ASYNC_REQUEST_REFRESH
                 (set_symbols (_symbols c ++ [symbol]) c))
    as (_ & _ & _ & -> & ->).
Qed.

Lemma fire_gets h c :
  websession_gets (fire h c) = websession_gets c
  ∧ refresh_requests c ≤ refresh_requests (fire h c) ≤ S (refresh_requests c).
Proof.
  unfold fire. destruct (decide (h ∈ handle <$> call_later c)); simpl;
    (split; [done|lia]).
Qed.

Lemma run_gets evs c :
  List.length (websession_gets (run evs c))
  = List.length (websession_gets c) + refreshes evs
  ∧ refresh_requests c ≤ refresh_requests (run evs c)
    ≤ refresh_requests c + timer_events evs.
Proof.
  revert c. induction evs as [|ev evs IH]; intros c; [simpl; lia|].
  rewrite run_cons. destruct (IH (step ev c)) as [Hgets Hreq].
  rewrite Hgets. destruct ev as [symbol| |response|h]; simpl in *.
  - destruct (add_symbol_gets symbol c) as [Hg Hr]. rewrite Hg, Hr in *. lia.
  - lia.
  - destruct (async_refresh_gets response c) as [Hg Hr].
    rewrite Hg, Hr, length_app in *. simpl. lia.
  - destruct (fire_gets h c) as [Hg Hr]. rewrite Hg in *. lia.
Qed.

(** X11.  Along every run the web session is asked once for each refresh
    and for nothing else, whether the refresh succeeds or fails: neither
    [add_symbol] nor a timer fetches.  [async_request_refresh] is called
    only when a timer fires, at most once per timer event. *)
Theorem one_request_per_refresh (evs : list event) (c : coordinator) :
  List.length (websession_gets (run evs c))
  = List.length (websession_gets c) + refreshes evs
  ∧ refresh_requests c ≤ refresh_requests (run evs c)
    ≤ refresh_requests c + timer_events evs.
Proof. apply run_gets. Qed.

Lemma append_empty (s : string) : (s ++ "")%string = s.
Proof.
  induction s as [|a s IH]; [done|].
  change (String a (s ++ "")%string = String a s). by rewrite IH.
Qed.

(** X12.  A refresh asks for the symbols tracked at that moment, joined by
    commas after [BASE], whatever the answer turns out to be.  A symbol
    added with [add_symbol] is named at the end of the next request, and
    with no tracked symbol the request still goes out, to [BASE] alone. *)
Theorem request_names_tracked_symbols (response : outcome jvalue)
    (c : coordinator) (symbol : string) :
  websession_gets (async_refresh response c)
  = websession_gets c ++ [(BASE ++ String.concat "," (get_symbols c))%string]
  ∧ (symbol ∉ get_symbols c →
     websession_gets (async_refresh response (add_symbol symbol c).2)
     = websession_gets c
       ++ [(BASE ++ String.concat "," (get_symbols c ++ [symbol]))%string])
  ∧ (get_symbols c = [] →
     websession_gets (async_refresh response c) = websession_gets c ++ [BASE]).
Proof.
  unfold get_symbols. split_and!.
  - apply async_refresh_gets.
  - intros Hnew. destruct (async_refresh_gets response (add_symbol symbol c).2)
      as [-> _].
    destruct (add_symbol_gets symbol c) as [-> _].
    rewrite add_symbol_symbols. by rewrite decide_False.
  - intros Hempty. destruct (async_refresh_gets response c) as [-> _].
    rewrite Hempty. simpl. by rewrite append_empty.
Qed.

Lemma add_refresh_later_slot duration c :
  is_Some (_refresh_remover (_add_refresh_later duration c))
  ∧ next_handle (_add_refresh_later duration c) = S (next_handle c).
Proof.
  unfold _add_refresh_later. by destruct (_refresh_remover c); simpl.
Qed.

(** A step leaves the slot and the next handle as they are, or it arms a
    timer: the slot is filled and a handle is used up. *)
Lemma step_slot ev c :
  (_refresh_remover (step ev c) = _refresh_remover c
   ∧ next_handle (step ev c) = next_handle c)
  ∨ (is_Some (_refresh_remover (step ev c))
     ∧ next_handle (step ev c) = S (next_handle c)).
Proof.
  destruct ev as [symbol| |response|h]; simpl.
  - unfold add_symbol. destruct (decide (symbol ∉ _symbols c)); [|by left].
    right. cbn [snd].
    apply (add_refresh_later_slot _ (set_symbols (_symbols c ++ [symbol]) c)).
  - by left.
  - unfold_refresh. destruct (_async_update response c).1 as [d|e] eqn:Hr.
    + rewrite (async_update_with_retry_returns _ _ _ _ _ _ _ Hr). by left.
    + rewrite (async_update_with_retry_raises _ _ _ _ _ _ _ Hr). right.
      cbv beta iota. unfold set_data. cbn [_refresh_remover next_handle].
      apply (add_refresh_later_slot FAILURE_ASYNC_REQUEST_REFRESH
               (_async_update response c).2).
  - left. unfold fire. by destruct (decide (h ∈ handle <$> call_later c)).
Qed.

Lemma run_slot symbols evs :
  _refresh_remover (run evs (__init__ symbols)) = None
  ↔ next_handle (run evs (__init__ symbols)) = 0.
Proof.
  induction evs as [|ev evs IH] using rev_ind; [done|].
  rewrite run_snoc.
  destruct (step_slot ev (run evs (__init__ symbols)))
    as [[-> ->]|[[h ->] ->]]; [done|]. split; [done|lia].
Qed.

(** X13.  Once a timer has been armed the remover slot is never emptied
    again: no step clears it, and when the armed timer fires the slot keeps
    the handle of that timer although no timer is armed any more.  On a
    coordinator reached by a run the slot is empty exactly when no timer
    was ever armed. *)
Theorem remover_slot_never_cleared (symbols : list string)
    (evs : list event) :
  let c := run evs (__init__ symbols) in
  (_refresh_remover c = None ↔ next_handle c = 0)
  ∧ (∀ ev, is_Some (_refresh_remover c) →
       is_Some (_refresh_remover (step ev c)))
  ∧ (∀ h d, call_later c = [Timer h d] →
       call_later (step (TimerFires h) c) = []
       ∧ _refresh_remover (step (TimerFires h) c) = Some h).
Proof.
  intros c. split_and!.
  - apply run_slot.
  - intros ev Hsome. destruct (step_slot ev c) as [[-> _]|[? _]]; done.
  - intros h d Ht.
    assert (timer_invariant c) as (Hslot & _)
      by apply run_invariant, init_invariant.
    destruct (fire_armed h d c Ht) as [_ Hfired]. split; [done|].
    simpl. unfold fire. rewrite Ht.
    destruct (decide (h ∈ handle <$> [Timer h d])); simpl;
      apply (Hslot (Timer h d)); rewrite Ht; left.
Qed.

Lemma adds_arm_one_timer added c :
  timer_invariant c →
  (∃ h, call_later c = [Timer h DELAY_ASYNC_REQUEST_REFRESH]
      ∧ _refresh_remover c = Some h)
  ∨ (∃ s, s ∈ added ∧ s ∉ _symbols c) →
  ∃ h, call_later (run (AddSymbol <$> added) c)
       = [Timer h DELAY_ASYNC_REQUEST_REFRESH]
     ∧ _refresh_remover (run (AddSymbol <$> added) c) = Some h.
Proof.
  revert c. induction added as [|s added IH]; intros c Hinv Hcase.
  - destruct Hcase as [?|(s & ?%elem_of_nil & _)]; done.
  - rewrite fmap_cons, run_cons. simpl.
    apply IH; [by apply add_symbol_invariant|].
    destruct (decide (s ∈ _symbols c)) as [Hold|Hnew].
    + rewrite add_symbol_present by done. simpl.
      destruct Hcase as [?|(s' & [->|Hin]%elem_of_cons & Hs')]; [by left|done|].
      right. by exists s'.
    + left. rewrite add_symbol_absent by done. simpl.
      set (c1 := set_symbols (_symbols c ++ [s]) c).
      destruct (add_refresh_later_armed DELAY_ASYNC_REQUEST_REFRESH c1 Hinv)
        as (Ht & Hr & _).
      by exists (next_handle c1).
Qed.

(** X14.  However many symbols are added in a row to a coordinator reached
    by a run, one of them at least being new, a single timer is armed
    afterwards, for the warm-up delay; the calls fetch nothing and request
    no refresh themselves, and when the timer fires it requests one
    refresh and leaves no timer armed. *)
Theorem repeated_add_symbol_single_refresh (symbols : list string)
    (evs : list event) (added : list string) :
  let c := run evs (__init__ symbols) in
  let c' := run (AddSymbol <$> added) c in
  (∃ s, s ∈ added ∧ s ∉ get_symbols c) →
  ∃ h, call_later c' = [Timer h DELAY_ASYNC_REQUEST_REFRESH]
    ∧ _refresh_remover c' = Some h
    ∧ websession_gets c' = websession_gets c
    ∧ refresh_requests c' = refresh_requests c
    ∧ refresh_requests (step (TimerFires h) c') = S (refresh_requests c)
    ∧ call_later (step (TimerFires h) c') = [].
Proof.
  intros c c' Hnew.
  assert (timer_invariant c) as Hinv by apply run_invariant, init_invariant.
  destruct (adds_arm_one_timer added c Hinv (or_intror Hnew)) as (h & Ht & Hr).
  fold c' in Ht, Hr. exists h.
  assert (websession_gets c' = websession_gets c
          ∧ refresh_requests c' = refresh_requests c) as [Hg Hq].
  { subst c'. clear. generalize c. clear c.
    induction added as [|s added IH]; intros c; [done|].
    rewrite fmap_cons, run_cons. simpl.
    destruct (IH (add_symbol s c).2) as [-> ->]. apply add_symbol_gets. }
  destruct (fire_armed h _ c' Ht) as [Hfire Hnone].
  split_and!; try done. simpl. by rewrite Hfire, Hq.
Qed.

(** ** The set-up *)

(** X15.  When the scan interval is accepted and the first fetch fails,
    [async_setup] still returns [True].  It leaves a coordinator without
    Snapshot and with [last_update_success] false, for which the retry
    timer of 20 seconds is armed and, in addition, one refresh has been
    requested at once; the web session was asked once, for the configured
    symbols. *)
Theorem setup_with_failing_fetch (CONF_SCAN_INTERVAL : string)
    (set_order : list string → list string) (config : domain_config)
    (response : outcome jvalue) (scan_interval : scan_interval_value)
    (e : exn) :
  let normalized := normalize_input set_order (conf_symbols config) in
  parse_scan_interval CONF_SCAN_INTERVAL (conf_scan_interval config)
  = Done scan_interval →
  (_async_update response (__init__ normalized.1)).1 = Raise e →
  ∃ c, async_setup CONF_SCAN_INTERVAL NUMERIC_DATA_KEYS STRING_DATA_KEYS
         DATA_REGULAR_MARKET_PRICE BASE set_order config response
       = Done (true, (c, DomainConfig normalized.2 scan_interval))
    ∧ get_symbols c = normalized.1
    ∧ data c = None
    ∧ last_update_success c = false
    ∧ call_later c = [Timer 0 FAILURE_ASYNC_REQUEST_REFRESH]
    ∧ refresh_requests c = 1
    ∧ websession_gets c
      = [(BASE ++ String.concat "," normalized.1)%string].
Proof.
  intros normalized Hscan He. subst normalized. unfold async_setup.
  destruct (normalize_input set_order (conf_symbols config))
    as [symbols normalized].
  rewrite Hscan. simpl in He. unfold_refresh.
  rewrite (async_update_with_retry_raises _ _ _ _ _ _ _ He).
  eexists. split; [reflexivity|]. by split_and!.
Qed.


End FurtherProperties.

(** * The further properties on the sample data *)

(** C3 (amended) on two payloads of the wire shape: the rate-limited one,
    whose embedded error is the first violation and the diagnostic, and the
    well-formed one, which has no violation and is accepted. *)
Lemma update_failed_diagnostics_rate_limited :
  Sample.DATA_REGULAR_MARKET_PRICE ∈ Sample.NUMERIC_DATA_KEYS.*1
  ∧ wire_shaped Sample.rate_limited
  ∧ first_violation Sample.rate_limited
    = Some (EmbeddedError (JStr "rate limited"))
  ∧ (Sample._async_update (Return Sample.rate_limited) (__init__ ["BABA"])).1
    = Raise (UpdateFailed (JStr "rate limited"))
  ∧ wire_shaped Sample.well_formed
  ∧ (∀ v, ¬ violates Sample.well_formed v)
  ∧ ∃ d, (Sample._async_update (Return Sample.well_formed)
            (__init__ ["BABA"])).1 = Return d.
Proof.
  assert (Sample.DATA_REGULAR_MARKET_PRICE ∈ Sample.NUMERIC_DATA_KEYS.*1)
    as Hprice by by_decision.
  assert (wire_shaped Sample.rate_limited) as Hlimited by (vm_compute; exact I).
  assert (first_violation Sample.rate_limited
          = Some (EmbeddedError (JStr "rate limited"))) as Hv
    by (vm_compute; reflexivity).
  assert (wire_shaped Sample.well_formed) as Hwell.
  { vm_compute. repeat constructor. by eexists. }
  assert (∀ v, ¬ violates Sample.well_formed v) as Hnone.
  { intros v Hviolates%violates_first_violation.
    vm_compute in Hviolates. by destruct Hviolates. }
  split; [exact Hprice|]. split; [exact Hlimited|]. split; [exact Hv|].
  destruct (update_failed_diagnostics Sample.NUMERIC_DATA_KEYS
              Sample.STRING_DATA_KEYS Sample.DATA_REGULAR_MARKET_PRICE
              Sample.BASE Sample.rate_limited (__init__ ["BABA"]))
    as (_ & _ & _ & Hshape & _).
  destruct (Hshape (or_introl Hprice) Hlimited) as (_ & _ & Hraise).
  split; [exact (Hraise _ Hv)|].
  split; [exact Hwell|]. split; [exact Hnone|].
  destruct (update_failed_diagnostics Sample.NUMERIC_DATA_KEYS
              Sample.STRING_DATA_KEYS Sample.DATA_REGULAR_MARKET_PRICE
              Sample.BASE Sample.well_formed (__init__ ["BABA"]))
    as (_ & _ & _ & Hshape' & _).
  destruct (Hshape' (or_introl Hprice) Hwell) as (_ & Hreturns & _).
  exact (Hreturns Hnone).
Defined.

(** X3 on the str ["None"]: it parses to [None], which does not parse. *)
Lemma scan_interval_reparse_none :
  parse_scan_interval More.CONF_SCAN_INTERVAL (ScanStr "None") = Done ScanNone
  ∧ parse_scan_interval More.CONF_SCAN_INTERVAL ScanNone
    = Failed SetupTypeError.
Proof.
  assert (parse_scan_interval More.CONF_SCAN_INTERVAL (ScanStr "None")
          = Done ScanNone) as Hparse by reflexivity.
  split; [exact Hparse|].
  exact (scan_interval_reparse More.CONF_SCAN_INTERVAL (ScanStr "None")
           ScanNone Hparse).
Defined.

(** X6 on symbols configured in mixed case. *)
Lemma configured_symbols_case_unique_sample :
  (∀ s : list string, reverse s ≡ₚ s)
  ∧ Forall (λ value, ascii_only (symbol_of value))
      [Plain "baba"; Complex "BABA" (Some "eur"); Plain "msft"]
  ∧ NoDup (upper <$> (normalize_input reverse
                        (symbol_schema <$> [Plain "baba";
                                            Complex "BABA" (Some "eur");
                                            Plain "msft"])).1).
Proof.
  assert (∀ s : list string, reverse s ≡ₚ s) as Hperm
    by apply reverse_Permutation.
  assert (Forall (λ value, ascii_only (symbol_of value))
            [Plain "baba"; Complex "BABA" (Some "eur"); Plain "msft"])
    as Hascii by (repeat constructor).
  split; [exact Hperm|]. split; [exact Hascii|].
  destruct (configured_symbols_case_unique reverse _ Hperm Hascii)
    as (_ & Hnodup & _).
  exact Hnodup.
Defined.

(** X7 on the well-formed payload. *)
Lemma update_succeeds_iff_keyed_baba :
  Sample.DATA_REGULAR_MARKET_PRICE ∈ Sample.NUMERIC_DATA_KEYS.*1
  ∧ result_list Sample.well_formed = Some [JObj Sample.baba]
  ∧ ∃ d, (Sample._async_update (Return Sample.well_formed)
            (__init__ ["BABA"])).1 = Return d.
Proof.
  assert (Sample.DATA_REGULAR_MARKET_PRICE ∈ Sample.NUMERIC_DATA_KEYS.*1)
    as Hprice by by_decision.
  assert (result_list Sample.well_formed = Some [JObj Sample.baba])
    as Hitems by (vm_compute; reflexivity).
  split; [exact Hprice|]. split; [exact Hitems|].
  destruct (update_succeeds_iff_keyed Sample.NUMERIC_DATA_KEYS
              Sample.STRING_DATA_KEYS Sample.DATA_REGULAR_MARKET_PRICE
              Sample.BASE Sample.well_formed [JObj Sample.baba]
              (__init__ ["BABA"]) (or_introl Hprice) Hitems) as [[_ Hok] _].
  apply Hok. repeat constructor. vm_compute. by eexists.
Defined.

(** X8 on the well-formed payload, refreshed while the retry is
    pending. *)
Lemma snapshot_holds_payload_symbols_baba :
  result_list Sample.well_formed = Some [JObj Sample.baba]
  ∧ (Sample._async_update (Return Sample.well_formed) Sample.retry_pending).1
    = Return Sample.baba_snapshot
  ∧ data (Sample.async_refresh (Return Sample.well_formed)
            Sample.retry_pending) = Some Sample.baba_snapshot
  ∧ Sample.baba_snapshot !! KStr "MSFT" = None.
Proof.
  assert (result_list Sample.well_formed = Some [JObj Sample.baba])
    as Hitems by (vm_compute; reflexivity).
  assert ((Sample._async_update (Return Sample.well_formed)
             Sample.retry_pending).1 = Return Sample.baba_snapshot) as Hd
    by (vm_compute; reflexivity).
  split; [exact Hitems|]. split; [exact Hd|].
  destruct (snapshot_holds_payload_symbols Sample.NUMERIC_DATA_KEYS
              Sample.STRING_DATA_KEYS Sample.DATA_REGULAR_MARKET_PRICE
              Sample.BASE Sample.well_formed [JObj Sample.baba]
              Sample.retry_pending Sample.baba_snapshot Hitems Hd)
    as (Hdata & Hdom & _).
  split; [exact Hdata|].
  destruct (Sample.baba_snapshot !! KStr "MSFT") as [record|] eqn:Hmsft;
    [|reflexivity].
  exfalso. destruct (proj1 (Hdom (KStr "MSFT"))) as (x & Hx & Hkey).
  - rewrite Hmsft. by eexists.
  - apply list_elem_of_singleton in Hx. subst x. vm_compute in Hkey.
    discriminate Hkey.
Defined.

(** X9 on a payload that lists BABA twice: the later price is kept. *)
Lemma last_element_wins_twice :
  result_list More.twice = Some ([JObj Sample.baba] ++ JObj More.baba_later :: [])
  ∧ (Sample._async_update (Return More.twice) (__init__ ["BABA"])).1
    = Return More.twice_snapshot
  ∧ ∃ record, Sample.parse_symbol_data (JObj More.baba_later) = Return record
      ∧ More.twice_snapshot !! KStr "BABA" = Some record.
Proof.
  assert (result_list More.twice
          = Some ([JObj Sample.baba] ++ JObj More.baba_later :: []))
    as Hitems by (vm_compute; reflexivity).
  assert ((Sample._async_update (Return More.twice) (__init__ ["BABA"])).1
          = Return More.twice_snapshot) as Hd by (vm_compute; reflexivity).
  split; [exact Hitems|]. split; [exact Hd|].
  refine (last_element_wins Sample.NUMERIC_DATA_KEYS Sample.STRING_DATA_KEYS
            Sample.DATA_REGULAR_MARKET_PRICE Sample.BASE More.twice
            [JObj Sample.baba] [] More.baba_later (KStr "BABA")
            (__init__ ["BABA"]) More.twice_snapshot Hitems _ _ Hd).
  - vm_compute. reflexivity.
  - intros x Hx. by apply elem_of_nil in Hx.
Defined.

(** X10 on a schema without the price field: the well-formed payload is
    refused. *)
Lemma price_field_must_be_listed_sample :
  (Sample.DATA_REGULAR_MARKET_PRICE ∉ More.NUMERIC_WITHOUT_PRICE.*1)
  ∧ (Sample.DATA_REGULAR_MARKET_PRICE ∉ Sample.STRING_DATA_KEYS)
  ∧ (_async_update More.NUMERIC_WITHOUT_PRICE Sample.STRING_DATA_KEYS
       Sample.DATA_REGULAR_MARKET_PRICE Sample.BASE
       (Return Sample.well_formed) (__init__ ["BABA"])).1
    = Raise (KeyError "regularMarketPrice").
Proof.
  assert (Sample.DATA_REGULAR_MARKET_PRICE ∉ More.NUMERIC_WITHOUT_PRICE.*1)
    as Hnum by by_decision.
  assert (Sample.DATA_REGULAR_MARKET_PRICE ∉ Sample.STRING_DATA_KEYS)
    as Hstr by by_decision.
  assert (result_list Sample.well_formed = Some [JObj Sample.baba])
    as Hitems by (vm_compute; reflexivity).
  split; [exact Hnum|]. split; [exact Hstr|].
  destruct (price_field_must_be_listed More.NUMERIC_WITHOUT_PRICE
              Sample.STRING_DATA_KEYS Sample.DATA_REGULAR_MARKET_PRICE
              Sample.BASE Sample.well_formed [JObj Sample.baba]
              (__init__ ["BABA"]) Hnum Hstr Hitems) as [Hraise _].
  apply (Hraise (JObj Sample.baba) []); [reflexivity|].
  vm_compute. by eexists.
Defined.

(** X14 on three calls of [add_symbol], one of them repeated. *)
Lemma repeated_add_symbol_single_refresh_sample :
  (∃ s, s ∈ ["USDEUR=X"; "USDEUR=X"; "MSFT"]
      ∧ s ∉ get_symbols (Sample.run [] (__init__ ["BABA"])))
  ∧ ∃ h, call_later
           (Sample.run (AddSymbol <$> ["USDEUR=X"; "USDEUR=X"; "MSFT"])
              (Sample.run [] (__init__ ["BABA"])))
         = [Timer h DELAY_ASYNC_REQUEST_REFRESH].
Proof.
  assert (∃ s, s ∈ ["USDEUR=X"; "USDEUR=X"; "MSFT"]
             ∧ s ∉ get_symbols (Sample.run [] (__init__ ["BABA"]))) as Hnew.
  { exists "MSFT". split; by_decision. }
  split; [exact Hnew|].
  destruct (repeated_add_symbol_single_refresh Sample.NUMERIC_DATA_KEYS
              Sample.STRING_DATA_KEYS Sample.DATA_REGULAR_MARKET_PRICE
              Sample.BASE ["BABA"] [] ["USDEUR=X"; "USDEUR=X"; "MSFT"] Hnew)
    as (h & Htimer & _).
  exists h. exact Htimer.
Defined.

(** X15 on a configuration with the default scan interval, when the first
    fetch is rate limited. *)
Lemma setup_with_failing_fetch_sample :
  parse_scan_interval More.CONF_SCAN_INTERVAL (conf_scan_interval More.config)
  = Done (ScanDelta DEFAULT_SCAN_INTERVAL)
  ∧ (Sample._async_update (Return Sample.rate_limited)
       (__init__ (normalize_input reverse (conf_symbols More.config)).1)).1
    = Raise (UpdateFailed (JStr "rate limited"))
  ∧ ∃ c, More.async_setup reverse More.config (Return Sample.rate_limited)
         = Done (true,
                 (c, DomainConfig
                       [Complex "BABA" None; Complex "MSFT" None]
                       (ScanDelta DEFAULT_SCAN_INTERVAL)))
      ∧ get_symbols c = ["MSFT"; "BABA"]
      ∧ call_later c = [Timer 0 20]
      ∧ refresh_requests c = 1.
Proof.
  assert (parse_scan_interval More.CONF_SCAN_INTERVAL
            (conf_scan_interval More.config)
          = Done (ScanDelta DEFAULT_SCAN_INTERVAL)) as Hscan
    by (vm_compute; reflexivity).
  assert ((Sample._async_update (Return Sample.rate_limited)
             (__init__ (normalize_input reverse
                          (conf_symbols More.config)).1)).1
          = Raise (UpdateFailed (JStr "rate limited"))) as He
    by (vm_compute; reflexivity).
  split; [exact Hscan|]. split; [exact He|].
  destruct (setup_with_failing_fetch Sample.NUMERIC_DATA_KEYS
              Sample.STRING_DATA_KEYS Sample.DATA_REGULAR_MARKET_PRICE
              Sample.BASE More.CONF_SCAN_INTERVAL reverse More.config
              (Return Sample.rate_limited) _ _ Hscan He)
    as (c & Hsetup & Hsymbols & _ & _ & Htimer & Hreq & _).
  exists c. split_and!; [exact Hsetup|exact Hsymbols|exact Htimer|exact Hreq].
Defined.

